(** * employee_changes_monitor.py: a model of the change monitor

    The script keeps a snapshot of the employee objects of a Jira Insight
    schema in [employees.json], fetches the catalogue again, and reports
    created, updated and deleted employees.  This file embeds
    [fetch_employees], [load_employees], [save_employees] and [main] and
    proves what they do.

    Conventions of the embedding:
    - a Python [dict] is an association list in insertion order with
      unique keys; [dict_set] overwrites in place or appends, as Python does;
    - a JSON object member is [Absent], [Null] or a string [Str s];
    - an employee record has the three members that [fetch_employees]
      builds; its label is a string, its ["updated"] a string or [None];
    - a history is a list of objects; a request that raises, answers with
      an error status or cannot be decoded is [HErr];
    - [log] and [send_to_slack] append to a trace of effects; the time stamp
      that [log] prepends is left out, and so is what the webhook answers,
      which [send_to_slack] swallows;
    - an uncaught Python exception is [Raised e]; the trace produced before
      it is kept, since those messages have already been sent;
    - the [while True] of [fetch_employees] takes fuel, one unit a page. *)

From Stdlib Require Import String Ascii List ZArith Bool Lia DecimalString.
Import ListNotations.
Open Scope string_scope.

(** ** Python values and primitives *)

Inductive exn : Type :=
| KeyError (key : string)
| TypeError
| AttributeError.

Inductive result (A : Type) : Type :=
| Ok (a : A)
| Raised (e : exn).
Arguments Ok {A} a.
Arguments Raised {A} e.

(** A member of a JSON object as [h.get(k)] and [h[k]] see it. *)
Inductive field : Type :=
| Absent
| Null
| Str (s : string).

(** [h.get(k)]: [None] when the key is absent or holds [null]. *)
Definition get (f : field) : option string :=
  match f with
  | Str s => Some s
  | _ => None
  end.

(** [h.get(k, d)]: the default only replaces an absent key. *)
Definition get_default (f : field) (d : string) : option string :=
  match f with
  | Absent => Some d
  | Null => None
  | Str s => Some s
  end.

(** [x or d] for [x] a string or [None]: the empty string is falsy too. *)
Definition or_default (x : option string) (d : string) : string :=
  match x with
  | Some s => if (s =? EmptyString)%string then d else s
  | None => d
  end.

(** How an f-string renders a string or [None]. *)
Definition fmt (x : option string) : string :=
  match x with
  | Some s => s
  | None => "None"
  end.

(** [a > b] on strings: lexicographic on code units. *)
Definition str_gt (a b : string) : bool := String.ltb b a.

(** [x != y] on values that are a string or [None]. *)
Definition opt_eqb (x y : option string) : bool :=
  match x, y with
  | Some a, Some b => (a =? b)%string
  | None, None => true
  | _, _ => false
  end.

(** The ["id"] member of an object entry: Insight sends a number, a snapshot
    file may hold a string. *)
Inductive py_id : Type :=
| IdInt (n : Z)
| IdStr (s : string).

(** [str(e["id"])]. *)
Definition str (i : py_id) : string :=
  match i with
  | IdInt n => NilZero.string_of_int (Z.to_int n)
  | IdStr s => s
  end.

(** ** Records *)

(** The object built by [fetch_employees]:
    [{"id": e["id"], "label": e["label"], "updated": e.get("updated")}]. *)
Record employee : Type := mk_employee {
  id : py_id;
  label : string;
  updated : option string
}.

(** [emp["updated"] = u]. *)
Definition set_updated (e : employee) (u : option string) : employee :=
  {| id := id e; label := label e; updated := u |}.

(** The ["actor"] member of a history entry. *)
Inductive actor_field : Type :=
| ActorAbsent
| ActorNull
| ActorObj (displayName : field).

(** One entry of [/object/<id>/history]. *)
Record hevent : Type := mk_hevent {
  created : field;
  affectedAttribute : field;
  oldValue : field;
  newValue : field;
  actor : actor_field
}.

(** What [session.get(...)], [raise_for_status()] and [resp.json()] give for
    one object: an exception (caught by the [except Exception]) or the
    decoded list. *)
Inductive hresp : Type :=
| HErr (e : string)
| HOk (history : list hevent).

(** ** Dictionaries *)

Module Dict.

Definition dict : Type := list (string * employee).

Fixpoint dict_get (k : string) (d : dict) : option employee :=
  match d with
  | [] => None
  | (k', v) :: d' => if (k =? k')%string then Some v else dict_get k d'
  end.

(** [k in d]. *)
Definition dict_mem (k : string) (d : dict) : bool :=
  match dict_get k d with
  | Some _ => true
  | None => false
  end.

(** [d[k] = v]: a known key keeps its position, a new one goes last. *)
Fixpoint dict_set (k : string) (v : employee) (d : dict) : dict :=
  match d with
  | [] => [(k, v)]
  | (k', v') :: d' =>
      if (k =? k')%string then (k, v) :: d'
      else (k', v') :: dict_set k v d'
  end.

(** [d.pop(k)]. *)
Fixpoint dict_pop (k : string) (d : dict) : dict :=
  match d with
  | [] => []
  | (k', v') :: d' =>
      if (k =? k')%string then d' else (k', v') :: dict_pop k d'
  end.

Definition keys (d : dict) : list string := map fst d.
Definition values (d : dict) : list employee := map snd d.

(** [{str(e["id"]): e for e in l}], continuing from [d]. *)
Definition of_list_from (d : dict) (l : list employee) : dict :=
  fold_left (fun acc e => dict_set (str (id e)) e acc) l d.

Definition of_list (l : list employee) : dict := of_list_from [] l.

(** What every Python dictionary satisfies. *)
Definition wf (d : dict) : Prop := NoDup (keys d).

End Dict.
Import Dict.

(** ** Messages and effects *)

(** One reported field change; line 125 renders it as
    [f"{attr}: {old_val} → {new_val}"]. *)
Record change : Type := mk_change {
  attr : string;
  old_val : string;
  new_val : string
}.

(** The messages that [main] hands to [log] and [send_to_slack], with the
    values interpolated into each f-string. *)
Inductive msg : Type :=
| Created (emp_id lbl : string)
| Updated (emp_id lbl who when : string) (changes : list change)
| Deleted (emp_id lbl : string).

Inductive effect : Type :=
| Notify (m : msg)                         (* log(msg); send_to_slack(msg) *)
| HistoryGet (emp_id : string)             (* session.get(.../history) *)
| LogHistoryError (lbl e : string)         (* log(f"History error ...") *)
| LogFetchError (status : Z)               (* log(f"Fetch error: ...") *)
| LogInitial                               (* log("Initial run ...") *)
| LogStarted
| LogFinished.

(** The line feed of the f-strings. *)
Definition nl : string := String "010" EmptyString.

Definition render_change (c : change) : string :=
  attr c ++ ": " ++ old_val c ++ " → " ++ new_val c.

Definition render (jira_url : string) (m : msg) : string :=
  match m with
  | Created emp_id lbl =>
      "[CREATED] *<" ++ jira_url ++ "/secure/ShowObject.jspa?id=" ++ emp_id
        ++ "|" ++ lbl ++ ">* (HR-" ++ emp_id ++ ")"
  | Updated emp_id lbl who when changes =>
      "[UPDATED] *<" ++ jira_url ++ "/secure/ShowObject.jspa?id=" ++ emp_id
        ++ "|" ++ lbl ++ ">* (HR-" ++ emp_id ++ ")" ++ nl
        ++ "*Changed by:* " ++ who ++ nl
        ++ "*Date:* `" ++ when ++ "`" ++ nl
        ++ "*Changes:*" ++ nl
        ++ String.concat (nl)
             (map (fun c => "• `" ++ render_change c ++ "`") changes)
  | Deleted emp_id lbl => "[DELETED] " ++ lbl ++ " (HR-" ++ emp_id ++ ")"
  end.

(** ** The update branch of [main] (lines 115-136) *)

(** Lines 122-124 for one history entry. *)
Definition change_of (h : hevent) : change :=
  {| attr := fmt (get_default (affectedAttribute h) "—");
     old_val := or_default (get (oldValue h)) "None";
     new_val := or_default (get (newValue h)) "None" |}.

(** [h["created"] > last_time]: the subscript raises on an absent key and
    the comparison raises on [None]. *)
Definition newer (last_time : string) (h : hevent) : result bool :=
  match created h with
  | Absent => Raised (KeyError "created")
  | Null => Raised TypeError
  | Str c => Ok (str_gt c last_time)
  end.

(** The loop of lines 119-125. *)
Fixpoint collect_changes (last_time : string) (history : list hevent)
  : result (list change) :=
  match history with
  | [] => Ok []
  | h :: rest =>
      match newer last_time h with
      | Raised e => Raised e
      | Ok b =>
          match collect_changes last_time rest with
          | Raised e => Raised e
          | Ok cs => Ok (if b then change_of h :: cs else cs)
          end
      end
  end.

(** [history[-1]] for a non-empty list. *)
Definition last_event (history : list hevent) : option hevent :=
  last (map Some history) None.

(** [history[-1].get("actor", {}).get("displayName", "Unknown")]. *)
Definition actor_name (h : hevent) : result string :=
  match actor h with
  | ActorAbsent => Ok "Unknown"
  | ActorNull => Raised AttributeError
  | ActorObj dn => Ok (fmt (get_default dn "Unknown"))
  end.

(** [history[-1].get("created", "Unknown")]. *)
Definition created_text (h : hevent) : string :=
  fmt (get_default (created h) "Unknown").

(** Lines 127-138: the message, when there is something to report. *)
Definition updated_msg (emp_id lbl : string) (history : list hevent)
  (changes : list change) : result (list effect) :=
  match changes with
  | [] => Ok []
  | _ :: _ =>
      match last_event history with
      | None => Ok []        (* not reached: [history] is not empty here *)
      | Some h =>
          match actor_name h with
          | Raised e => Raised e
          | Ok who =>
              Ok [Notify (Updated emp_id lbl who (created_text h) changes)]
          end
      end
  end.

(** ** Pass 1: created and updated (lines 88-139) *)

Section Reconcile.

(** The history endpoint, by object id. *)
Variable hist : string -> hresp.

(** One iteration of the loop over [new_data.items()]: the dictionary
    [old_data] after it (or the exception) and the effects it had. *)
Definition step (old_data : dict) (emp_id : string) (emp : employee)
  : result dict * list effect :=
  let lbl := label emp in
  let upd := updated emp in
  match dict_get emp_id old_data with
  | None =>
      (Ok (dict_set emp_id emp old_data), [Notify (Created emp_id lbl)])
  | Some old =>
      let old_updated := updated old in
      if opt_eqb upd old_updated then (Ok old_data, [])
      else
        match hist emp_id with
        | HErr e => (Ok old_data, [HistoryGet emp_id; LogHistoryError lbl e])
        | HOk [] => (Ok old_data, [HistoryGet emp_id])
        | HOk history =>
            let last_time := or_default old_updated "0" in
            match collect_changes last_time history with
            | Raised e => (Raised e, [HistoryGet emp_id])
            | Ok changes =>
                match updated_msg emp_id lbl history changes with
                | Raised e => (Raised e, [HistoryGet emp_id])
                | Ok out =>
                    (Ok (dict_set emp_id (set_updated old upd) old_data),
                     HistoryGet emp_id :: out)
                end
            end
        end
  end.

Fixpoint pass1 (items : list (string * employee)) (old_data : dict)
  : result dict * list effect :=
  match items with
  | [] => (Ok old_data, [])
  | (emp_id, emp) :: rest =>
      match step old_data emp_id emp with
      | (Ok d, out) =>
          let (r, tr) := pass1 rest d in (r, (out ++ tr)%list)
      | (Raised e, out) => (Raised e, out)
      end
  end.

(** ** Pass 2: deleted (lines 142-148) *)

Fixpoint pass2 (ks : list string) (new_data old_data : dict)
  : result dict * list effect :=
  match ks with
  | [] => (Ok old_data, [])
  | emp_id :: rest =>
      if dict_mem emp_id new_data then pass2 rest new_data old_data
      else
        match dict_get emp_id old_data with
        | None => (Raised (KeyError emp_id), [])
        | Some r =>
            let (res, tr) := pass2 rest new_data (dict_pop emp_id old_data) in
            (res, Notify (Deleted emp_id (label r)) :: tr)
        end
  end.

(** Lines 88-148: both passes, on the snapshot [old_data] and the
    catalogue [new_data]. *)
Definition reconcile (old_data new_data : dict) : result dict * list effect :=
  match pass1 new_data old_data with
  | (Ok w, tr1) =>
      let (res, tr2) := pass2 (keys w) new_data w in (res, (tr1 ++ tr2)%list)
  | (Raised e, tr1) => (Raised e, tr1)
  end.

End Reconcile.

(** ** The catalogue and the snapshot file *)

(** One page of [/iql/objects]: the status and
    [resp.json().get("objectEntries", [])], each entry already reduced to
    the three members that line 55 keeps. *)
Record response : Type := mk_response {
  status_code : Z;
  objectEntries : list employee
}.

Section Catalogue.

(** The catalogue endpoint, by page number. *)
Variable get_page : nat -> response.

(** The [while True] of [fetch_employees]; [None] when [fuel] pages were
    read and the loop has not left yet. *)
Fixpoint fetch_pages (fuel page : nat) (employees : list employee)
  : option (list employee * list effect) :=
  match fuel with
  | O => None
  | S fuel' =>
      let resp := get_page page in
      if negb (status_code resp =? 200)%Z
      then Some (employees, [LogFetchError (status_code resp)])
      else
        match objectEntries resp with
        | [] => Some (employees, [])
        | data =>
            let employees' := (employees ++ data)%list in
            if (length data <? 1000)%nat then Some (employees', [])
            else fetch_pages fuel' (S page) employees'
        end
  end.

Definition fetch_employees (fuel : nat) : option (dict * list effect) :=
  match fetch_pages fuel 1 [] with
  | None => None
  | Some (employees, tr) => Some (of_list employees, tr)
  end.

(** [json.dump(list(data.values()), f)]: the file holds the records. *)
Definition save_employees (data : dict) : list employee := values data.

(** [load_employees]: the snapshot, the file afterwards, the effects. *)
Definition load_employees (fuel : nat) (file : option (list employee))
  : option (dict * option (list employee) * list effect) :=
  match file with
  | None =>
      match fetch_employees fuel with
      | None => None
      | Some (data, tr) =>
          Some (data, Some (save_employees data), LogInitial :: tr)
      end
  | Some l => Some (of_list l, file, [])
  end.

(** The outcome of a run of [main]. *)
Record run : Type := mk_run {
  file_after : option (list employee);
  uncaught : option exn;
  trace : list effect
}.

Definition main (hist : string -> hresp) (fuel : nat)
  (file : option (list employee)) : option run :=
  match load_employees fuel file with
  | None => None
  | Some (old_data, file1, tr0) =>
      match fetch_employees fuel with
      | None => None
      | Some (new_data, tr1) =>
          match reconcile hist old_data new_data with
          | (Ok d, tr2) =>
              Some {| file_after := Some (save_employees d);
                      uncaught := None;
                      trace := (LogStarted :: tr0 ++ tr1 ++ tr2
                                  ++ [LogFinished])%list |}
          | (Raised e, tr2) =>
              Some {| file_after := file1;
                      uncaught := Some e;
                      trace := (LogStarted :: tr0 ++ tr1 ++ tr2)%list |}
          end
      end
  end.

End Catalogue.

(** ** The scenario of the specification *)

Module Scenario.

Definition alice1 := mk_employee (IdInt 1) "Alice" (Some "2024-01-01T00:00:00").
Definition alice2 := mk_employee (IdInt 1) "Alice" (Some "2024-01-02T00:00:00").
Definition bob := mk_employee (IdInt 2) "Bob" (Some "2024-01-03T00:00:00").

Definition promotion : hevent :=
  mk_hevent (Str "2024-01-02T00:00:00") (Str "title") (Str "Eng")
    (Str "Sr Eng") (ActorObj (Str "Carol")).

Definition hist (emp_id : string) : hresp :=
  if (emp_id =? "1")%string then HOk [promotion] else HErr "404".

Definition previous : dict := [("1", alice1)].
Definition current : dict := [("1", alice2); ("2", bob)].

End Scenario.

(** ** What pass 1 leaves for one record *)

Section Entries.

Variable hist : string -> hresp.

(** The history of [emp_id] was fetched and is not empty. *)
Definition fetched_nonempty (emp_id : string) : bool :=
  match hist emp_id with
  | HOk (_ :: _) => true
  | _ => false
  end.

(** The time stamp differs and line 139 is reached. *)
Definition acknowledged (emp_id : string) (old emp : employee) : bool :=
  negb (opt_eqb (updated emp) (updated old)) && fetched_nonempty emp_id.

(** The entry of [emp_id] after its iteration of the first loop. *)
Definition entry_after (o : option employee) (emp_id : string)
  (emp : employee) : employee :=
  match o with
  | None => emp
  | Some old =>
      if acknowledged emp_id old emp then set_updated old (updated emp)
      else old
  end.

(** The time stamp differs and line 139 is not reached: the request
    failed (line 113) or the history is empty (line 116). *)
Definition unacknowledged (emp_id : string) (old emp : employee) : bool :=
  negb (opt_eqb (updated emp) (updated old))
  && negb (fetched_nonempty emp_id).

End Entries.

(** ** Reading a trace *)

(** A [DELETED] message for [emp_id]. *)
Definition is_deleted_for (emp_id : string) (ef : effect) : bool :=
  match ef with
  | Notify (Deleted k _) => (k =? emp_id)%string
  | _ => false
  end.

(** An [UPDATED] message for [emp_id]. *)
Definition is_updated_for (emp_id : string) (ef : effect) : bool :=
  match ef with
  | Notify (Updated k _ _ _ _) => (k =? emp_id)%string
  | _ => false
  end.

(** A message of any kind, as opposed to a request or an error line. *)
Definition is_message (ef : effect) : bool :=
  match ef with
  | Notify _ => true
  | _ => false
  end.

Definition count (p : effect -> bool) (tr : list effect) : nat :=
  length (filter p tr).

(** ** The history filter *)

(** [last_time = old_updated or "0"] (line 118). *)
Definition last_time (old_updated : option string) : string :=
  or_default old_updated "0".

(** The entries that the test of line 121 lets through, when it raises on
    none of them. *)
Definition created_after (t : string) (h : hevent) : bool :=
  match created h with
  | Str c => str_gt c t
  | _ => false
  end.

(** Every entry has a string under ["created"]. *)
Definition dated (h : hevent) : Prop := exists c, created h = Str c.

(** The histories on which lines 121 and 128 do not raise: every entry is
    dated and the last one has no null actor. *)
Definition well_shaped (hist : string -> hresp) : Prop :=
  forall k history,
    hist k = HOk history ->
    Forall dated history
    /\ (forall h, last_event history = Some h -> actor h <> ActorNull).

(** ** The snapshot file *)

(** Every key is the string form of the ["id"] of its record. *)
Definition keyed (d : dict) : Prop :=
  Forall (fun kv => fst kv = str (id (snd kv))) d.

(** ** The guarantees in the words of the specification *)

Module Specified.

Section Snapshot.

Variable hist : string -> hresp.
Variables previous current : dict.

(** "ids whose history fetch failed in pass 1": the record is in both
    snapshots, its time stamp differs, and the request ended in an
    error. *)
Definition fetch_failed (k : string) : bool :=
  match dict_get k previous, dict_get k current with
  | Some o, Some e =>
      negb (opt_eqb (updated e) (updated o))
      && match hist k with HErr _ => true | HOk _ => false end
  | _, _ => false
  end.

Definition previous_timestamp (k : string) : option string :=
  match dict_get k previous with
  | Some o => updated o
  | None => None
  end.

(** "contains exactly the ids in current, each with current's label and
    timestamp, except for ids whose history fetch failed, which retain
    the previous timestamp". *)
Definition snapshot_guarantee (next : dict) : Prop :=
  forall k,
    match dict_get k current with
    | None => dict_get k next = None
    | Some e =>
        exists r, dict_get k next = Some r
                  /\ label r = label e
                  /\ updated r = if fetch_failed k
                                 then previous_timestamp k
                                 else updated e
    end.

End Snapshot.

(** "lastKnown = oldTs if present else a sentinel". *)
Definition last_known (oldTs : option string) : string :=
  match oldTs with
  | Some t => t
  | None => "0"
  end.

(** "a sentinel that sorts before all real timestamps": the entries of a
    history carry real time stamps when each has a string under
    ["created"] and the sentinel sorts before it. *)
Definition real_timestamps (history : list hevent) : Prop :=
  forall h, In h history ->
    exists c, created h = Str c /\ str_gt c (last_known None) = true.

(** "Filter history events to those with createdAt > lastKnown". *)
Definition reportable (oldTs : option string) (history : list hevent)
  : list hevent :=
  filter (created_after (last_known oldTs)) history.

(** [x ?? d]: the default exactly when the value is null. *)
Definition coalesce (x : field) (d : string) : string :=
  match x with
  | Str s => s
  | _ => d
  end.

(** "{attribute: e.affectedAttribute ?? "—", oldValue: e.oldValue ?? "None",
    newValue: e.newValue ?? "None"}". *)
Definition field_change (h : hevent) : change :=
  {| attr := coalesce (affectedAttribute h) "—";
     old_val := coalesce (oldValue h) "None";
     new_val := coalesce (newValue h) "None" |}.

End Specified.

(** ** Concrete runs *)

Module Inputs.

Definition ts1 := "2024-01-01T00:00:00".
Definition ts2 := "2024-01-02T00:00:00".
Definition ts3 := "2024-01-03T00:00:00".

Definition alice1 := mk_employee (IdInt 1) "Alice" (Some ts1).
Definition alice2 := mk_employee (IdInt 1) "Alice" (Some ts2).
Definition alicia2 := mk_employee (IdInt 1) "Alicia" (Some ts2).
Definition bob1 := mk_employee (IdInt 2) "Bob" (Some ts1).
Definition bob3 := mk_employee (IdInt 2) "Bob" (Some ts3).
Definition carol1 := mk_employee (IdInt 3) "Carol" (Some ts1).

Definition event (c : string) (a o n : field) (who : string) : hevent :=
  mk_hevent (Str c) a o n (ActorObj (Str who)).

(** The endpoint is down. *)
Definition down (emp_id : string) : hresp := HErr "503 Server Error".

(** A rename is recorded for object 1; object 2 has no history. *)
Definition renamed (emp_id : string) : hresp :=
  if (emp_id =? "1")%string
  then HOk [event ts2 (Str "Name") (Str "Alice") (Str "Alicia") "Dave"]
  else HOk [].

Definition ts0 := "2023-12-31T00:00:00".

(** Newest first: a promotion after [ts1], then an entry before it. *)
Definition newest_first (emp_id : string) : hresp :=
  HOk [event ts2 (Str "title") (Str "Eng") (Str "Sr Eng") "Carol";
       event ts0 (Str "phone") (Str "555-0100") (Str "555-0199") "Eve"].

(** An entry with a null attribute and an empty old value. *)
Definition first_manager : hevent :=
  event ts2 Null (Str EmptyString) (Str "Grace") "Carol".

Definition sparse (emp_id : string) : hresp := HOk [first_manager].

(** An entry without ["created"]. *)
Definition undated : hevent :=
  mk_hevent Absent (Str "title") (Str "Eng") (Str "Sr Eng")
    (ActorObj (Str "Carol")).

Definition malformed (emp_id : string) : hresp := HOk [undated].

(** A catalogue of one short page, and one whose first page fails. *)
Definition one_page (page : nat) : response :=
  mk_response 200 [alice2; bob3].

Definition unavailable (page : nat) : response := mk_response 503 [].

(** A catalogue of 1001 objects whose second page is refused. *)
Definition staff (n : nat) : employee :=
  mk_employee (IdInt (Z.of_nat n)) "Staff" (Some ts1).

Definition first_page : list employee := map staff (seq 1 1000).

Definition zoe := mk_employee (IdInt 1001) "Zoe" (Some ts1).

Definition second_page_refused (page : nat) : response :=
  match page with
  | 1 => mk_response 200 first_page
  | _ => mk_response 500 []
  end.

Definition before : dict := [("1", alice1); ("2", bob1)].
Definition after : dict := [("1", alicia2); ("2", bob3)].

(** The snapshot that the run on [before], [after] and [renamed] saves. *)
Definition kept : dict := [("1", alice2); ("2", bob1)].

End Inputs.

(** ** Effects by object *)

(** The effect names the object [emp_id]: a message about it, or the
    request for its history. *)
Definition about (emp_id : string) (ef : effect) : bool :=
  match ef with
  | Notify (Created k _) => (k =? emp_id)%string
  | Notify (Updated k _ _ _ _) => (k =? emp_id)%string
  | Notify (Deleted k _) => (k =? emp_id)%string
  | HistoryGet k => (k =? emp_id)%string
  | _ => false
  end.

(** The request for the history of [emp_id]. *)
Definition is_history_get (emp_id : string) (ef : effect) : bool :=
  match ef with
  | HistoryGet k => (k =? emp_id)%string
  | _ => false
  end.

(** [emp_id] is stored and in the catalogue, with another time stamp: the
    test of line 103. *)
Definition changed (old_data new_data : dict) (emp_id : string) : bool :=
  match dict_get emp_id old_data, dict_get emp_id new_data with
  | Some o, Some e => negb (opt_eqb (updated e) (updated o))
  | _, _ => false
  end.

(** The [DELETED] message of line 145 for a stored record. *)
Definition deleted_msg (kv : string * employee) : effect :=
  Notify (Deleted (fst kv) (label (snd kv))).

(** The stored record is, or is not, in the catalogue. *)
Definition in_catalogue (new_data : dict) (kv : string * employee) : bool :=
  dict_mem (fst kv) new_data.

Definition not_in_catalogue (new_data : dict) (kv : string * employee) : bool :=
  negb (dict_mem (fst kv) new_data).


(** ** Pages *)

(** A page that makes the loop of [fetch_employees] go on: status 200 and
    at least 1000 entries (line 60). *)
Definition full_page (get_page : nat -> response) (page : nat) : Prop :=
  status_code (get_page page) = 200%Z
  /\ (1000 <= length (objectEntries (get_page page)))%nat.

(** The entries of the [n] pages from [page] on, in order. *)
Definition entries_from (get_page : nat -> response) (page n : nat)
  : list employee :=
  concat (map (fun p => objectEntries (get_page p)) (seq page n)).

(** ** More concrete runs *)

Module Runs.

(** Three full pages of the same staff and a short fourth page. *)
Definition four_pages (page : nat) : response :=
  match page with
  | 1 | 2 | 3 => mk_response 200 Inputs.first_page
  | _ => mk_response 200 [Inputs.zoe]
  end.

(** Three full pages and a refused fourth. *)
Definition fourth_refused (page : nat) : response :=
  match page with
  | 1 | 2 | 3 => mk_response 200 Inputs.first_page
  | _ => mk_response 502 []
  end.

(** Every page is full. *)
Definition endless (page : nat) : response :=
  mk_response 200 Inputs.first_page.

(** A history whose only entry is older than the stored time stamp. *)
Definition stale (emp_id : string) : hresp :=
  HOk [Inputs.event Inputs.ts0 (Str "phone") (Str "555-0100")
         (Str "555-0199") "Eve"].

(** No history at all. *)
Definition silent (emp_id : string) : hresp := HOk [].

Definition alice_old : dict := [("1", Inputs.alice1)].
Definition alice_new : dict := [("1", Inputs.alice2)].
Definition alice_renamed : dict :=
  [("1", mk_employee (IdInt 1) "Alicia" (Some Inputs.ts1))].

End Runs.

(** * Proofs *)

Example scenario_reconcile :
  reconcile Scenario.hist Scenario.previous Scenario.current
  = (Ok [("1", Scenario.alice2); ("2", Scenario.bob)],
     [HistoryGet "1";
      Notify (Updated "1" "Alice" "Carol" "2024-01-02T00:00:00"
                [mk_change "title" "Eng" "Sr Eng"]);
      Notify (Created "2" "Bob")]).
Proof. reflexivity. Qed.

(** ** Dictionaries *)

Module DictFacts.

Lemma dict_get_none_iff (k : string) (d : dict) :
  dict_get k d = None <-> ~ In k (keys d).
Proof.
  induction d as [|[k' v] d IH]; simpl.
  - tauto.
  - destruct (String.eqb_spec k k') as [->|Hne].
    + split; [discriminate | intros H; exfalso; apply H; now left].
    + rewrite IH. split.
      * intros H [E|I]; [congruence | tauto].
      * intros H I. apply H. now right.
Qed.

Lemma dict_get_some_in (k : string) (v : employee) (d : dict) :
  dict_get k d = Some v -> In (k, v) d.
Proof.
  induction d as [|[k' v'] d IH]; simpl; [discriminate|].
  destruct (String.eqb_spec k k') as [->|Hne].
  - intros [= ->]. now left.
  - intros H. right. auto.
Qed.

Lemma dict_get_in (k : string) (v : employee) (d : dict) :
  wf d -> In (k, v) d -> dict_get k d = Some v.
Proof.
  unfold wf. induction d as [|[k' v'] d IH]; simpl; [tauto|].
  intros Hnd [E|I].
  - injection E as -> ->. now rewrite String.eqb_refl.
  - inversion Hnd as [|? ? Hni Hnd']; subst.
    destruct (String.eqb_spec k k') as [->|Hne].
    + exfalso. apply Hni. unfold keys. change k' with (fst (k', v)).
      now apply in_map.
    + auto.
Qed.

Lemma dict_get_set_same (k : string) (v : employee) (d : dict) :
  dict_get k (dict_set k v d) = Some v.
Proof.
  induction d as [|[k' v'] d IH]; simpl.
  - now rewrite String.eqb_refl.
  - destruct (String.eqb_spec k k') as [->|Hne]; simpl.
    + now rewrite String.eqb_refl.
    + destruct (String.eqb_spec k k'); [contradiction | exact IH].
Qed.

Lemma dict_get_set_other (k k0 : string) (v : employee) (d : dict) :
  k0 <> k -> dict_get k0 (dict_set k v d) = dict_get k0 d.
Proof.
  intros Hne. induction d as [|[k' v'] d IH]; simpl.
  - destruct (String.eqb_spec k0 k); [contradiction | reflexivity].
  - destruct (String.eqb_spec k k') as [->|Hne']; simpl.
    + destruct (String.eqb_spec k0 k'); [contradiction | reflexivity].
    + now rewrite IH.
Qed.

Lemma dict_set_absent (k : string) (v : employee) (d : dict) :
  dict_get k d = None -> dict_set k v d = (d ++ [(k, v)])%list.
Proof.
  induction d as [|[k' v'] d IH]; simpl; [reflexivity|].
  destruct (String.eqb_spec k k'); [discriminate|].
  intros H. now rewrite IH.
Qed.

Lemma keys_set_present (k : string) (v v0 : employee) (d : dict) :
  dict_get k d = Some v0 -> keys (dict_set k v d) = keys d.
Proof.
  induction d as [|[k' v'] d IH]; simpl; [discriminate|].
  destruct (String.eqb_spec k k') as [->|Hne]; simpl.
  - reflexivity.
  - intros H. f_equal. auto.
Qed.

Lemma wf_set (k : string) (v : employee) (d : dict) :
  wf d -> wf (dict_set k v d).
Proof.
  intros Hwf. destruct (dict_get k d) as [v0|] eqn:E.
  - unfold wf. now rewrite (keys_set_present k v v0 d E).
  - rewrite (dict_set_absent k v d E). unfold wf, keys.
    rewrite map_app. simpl.
    apply dict_get_none_iff in E.
    apply NoDup_app; [exact Hwf | repeat constructor; simpl; tauto |].
    intros x Hx [<-|[]]. contradiction.
Qed.

Lemma dict_get_pop_other (k k0 : string) (d : dict) :
  k0 <> k -> dict_get k0 (dict_pop k d) = dict_get k0 d.
Proof.
  intros Hne. induction d as [|[k' v'] d IH]; simpl; [reflexivity|].
  destruct (String.eqb_spec k k') as [->|Hne']; simpl.
  - destruct (String.eqb_spec k0 k'); [contradiction | reflexivity].
  - now rewrite IH.
Qed.

Lemma keys_pop_incl (k : string) (d : dict) :
  incl (keys (dict_pop k d)) (keys d).
Proof.
  induction d as [|[k' v'] d IH]; simpl; [apply incl_refl|].
  destruct (String.eqb k k'); simpl.
  - apply incl_tl, incl_refl.
  - intros x [<-|I]; [now left | right; now apply IH].
Qed.

Lemma wf_pop (k : string) (d : dict) : wf d -> wf (dict_pop k d).
Proof.
  unfold wf. induction d as [|[k' v'] d IH]; simpl; [auto|].
  intros Hnd. inversion Hnd as [|? ? Hni Hnd']; subst.
  destruct (String.eqb k k'); simpl; [assumption|].
  constructor; [|auto].
  intros I. apply Hni. now apply (keys_pop_incl k d).
Qed.

Lemma dict_get_pop_same (k : string) (d : dict) :
  wf d -> dict_get k (dict_pop k d) = None.
Proof.
  unfold wf. induction d as [|[k' v'] d IH]; simpl; [reflexivity|].
  intros Hnd. inversion Hnd as [|? ? Hni Hnd']; subst.
  destruct (String.eqb_spec k k') as [->|Hne]; simpl.
  - now apply dict_get_none_iff.
  - destruct (String.eqb_spec k k'); [contradiction | auto].
Qed.

Lemma dict_pop_absent (k : string) (d : dict) :
  dict_get k d = None -> dict_pop k d = d.
Proof.
  induction d as [|[k' v'] d IH]; simpl; [reflexivity|].
  destruct (String.eqb k k'); [discriminate|].
  intros H. now rewrite IH.
Qed.

Lemma opt_eqb_spec (x y : option string) : reflect (x = y) (opt_eqb x y).
Proof.
  destruct x as [a|], y as [b|]; simpl; try (constructor; congruence).
  destruct (String.eqb_spec a b); constructor; congruence.
Qed.

Lemma opt_eqb_refl (x : option string) : opt_eqb x x = true.
Proof. destruct (opt_eqb_spec x x); congruence. Qed.

End DictFacts.
Import DictFacts.

(** ** Pass 1, one record at a time *)

Section Pass1Facts.

Variable hist : string -> hresp.

Lemma step_dict (d d' : dict) (k : string) (e : employee) (out : list effect) :
  step hist d k e = (Ok d', out) ->
  d' = match dict_get k d with
       | None => dict_set k e d
       | Some old =>
           if acknowledged hist k old e
           then dict_set k (set_updated old (updated e)) d
           else d
       end.
Proof.
  unfold step, acknowledged, fetched_nonempty.
  destruct (dict_get k d) as [old|]; [|now intros [= <- _]].
  destruct (opt_eqb (updated e) (updated old)); simpl; [now intros [= <- _]|].
  destruct (hist k) as [err|[|h history]]; try now intros [= <- _].
  destruct (collect_changes _ _) as [cs|ex]; [|discriminate].
  destruct (updated_msg _ _ _ _) as [o|ex]; [|discriminate].
  now intros [= <- _].
Qed.

Lemma step_wf (d d' : dict) (k : string) (e : employee) (out : list effect) :
  wf d -> step hist d k e = (Ok d', out) -> wf d'.
Proof.
  intros Hwf H. apply step_dict in H. subst d'.
  destruct (dict_get k d) as [old|]; [|now apply wf_set].
  destruct (acknowledged hist k old e); [now apply wf_set | assumption].
Qed.

Lemma step_other (d d' : dict) (k k0 : string) (e : employee)
  (out : list effect) :
  step hist d k e = (Ok d', out) -> k0 <> k ->
  dict_get k0 d' = dict_get k0 d.
Proof.
  intros H Hne. apply step_dict in H. subst d'.
  destruct (dict_get k d) as [old|]; [|now apply dict_get_set_other].
  destruct (acknowledged hist k old e);
    [now apply dict_get_set_other | reflexivity].
Qed.

Lemma step_same (d d' : dict) (k : string) (e : employee)
  (out : list effect) :
  step hist d k e = (Ok d', out) ->
  dict_get k d' = Some (entry_after hist (dict_get k d) k e).
Proof.
  intros H. apply step_dict in H. subst d'. unfold entry_after.
  destruct (dict_get k d) as [old|] eqn:E; [|apply dict_get_set_same].
  destruct (acknowledged hist k old e); [apply dict_get_set_same | exact E].
Qed.

(** ** Pass 1 as a whole *)

Lemma pass1_wf (items : list (string * employee)) :
  forall (d w : dict) (tr : list effect),
    wf d -> pass1 hist items d = (Ok w, tr) -> wf w.
Proof.
  induction items as [|[k e] items IH]; simpl; intros d w tr Hwf H.
  - now injection H as <- _.
  - destruct (step hist d k e) as [[d1|ex] out] eqn:Es; [|discriminate].
    destruct (pass1 hist items d1) as [r tr1] eqn:Ep.
    injection H as -> _.
    eapply IH; [eapply step_wf; eassumption | eassumption].
Qed.

Lemma pass1_other (items : list (string * employee)) :
  forall (d w : dict) (tr : list effect) (k0 : string),
    pass1 hist items d = (Ok w, tr) ->
    ~ In k0 (map fst items) ->
    dict_get k0 w = dict_get k0 d.
Proof.
  induction items as [|[k e] items IH]; simpl; intros d w tr k0 H Hni.
  - now injection H as <- _.
  - destruct (step hist d k e) as [[d1|ex] out] eqn:Es; [|discriminate].
    destruct (pass1 hist items d1) as [r tr1] eqn:Ep.
    injection H as -> _.
    rewrite (IH d1 w tr1 k0 Ep) by tauto.
    eapply step_other; [eassumption|]. intros ->. tauto.
Qed.

Lemma pass1_same (items : list (string * employee)) :
  forall (d w : dict) (tr : list effect) (k : string) (e : employee),
    NoDup (map fst items) ->
    pass1 hist items d = (Ok w, tr) ->
    In (k, e) items ->
    dict_get k w = Some (entry_after hist (dict_get k d) k e).
Proof.
  induction items as [|[k1 e1] items IH]; simpl; intros d w tr k e Hnd H Hin.
  - contradiction.
  - inversion Hnd as [|? ? Hni Hnd']; subst.
    destruct (step hist d k1 e1) as [[d1|ex] out] eqn:Es; [|discriminate].
    destruct (pass1 hist items d1) as [r tr1] eqn:Ep.
    injection H as -> _.
    destruct Hin as [E|Hin].
    + injection E as -> ->.
      rewrite (pass1_other items d1 w tr1 k Ep Hni).
      eapply step_same; eassumption.
    + rewrite (IH d1 w tr1 k e Hnd' Ep Hin).
      assert (k <> k1) as Hne.
      { intros ->. apply Hni. change k1 with (fst (k1, e)). now apply in_map. }
      now rewrite (step_other d d1 k1 k e1 out Es Hne).
Qed.

End Pass1Facts.

(** ** Pass 2 *)

Section Pass2Facts.

Variable new_data : dict.

Lemma count_app (p : effect -> bool) (a b : list effect) :
  count p (a ++ b) = (count p a + count p b)%nat.
Proof. unfold count. now rewrite filter_app, length_app. Qed.

(** Nothing is deleted when every key is still in the catalogue. *)
Lemma pass2_noop (ks : list string) (d : dict) :
  (forall k, In k ks -> dict_mem k new_data = true) ->
  pass2 ks new_data d = (Ok d, []).
Proof.
  induction ks as [|k ks IH]; simpl; intros H; [reflexivity|].
  rewrite (H k) by now left. apply IH. intros; apply H; now right.
Qed.

(** The second loop on keys [ks] that [d] holds: it ends, and it removes
    and reports exactly the keys missing from the catalogue. *)
Lemma pass2_spec (ks : list string) :
  forall d : dict,
    wf d -> NoDup ks ->
    (forall k, In k ks -> dict_get k d <> None) ->
    exists (d' : dict) (tr : list effect),
      pass2 ks new_data d = (Ok d', tr)
      /\ (forall k, In k ks -> dict_mem k new_data = false ->
                    dict_get k d' = None /\ count (is_deleted_for k) tr = 1%nat)
      /\ (forall k, ~ In k ks \/ dict_mem k new_data = true ->
                    dict_get k d' = dict_get k d
                    /\ count (is_deleted_for k) tr = 0%nat)
      /\ (forall ef, In ef tr ->
            exists k r, ef = Notify (Deleted k (label r))
                        /\ In k ks /\ dict_get k d = Some r
                        /\ dict_mem k new_data = false).
Proof.
  induction ks as [|k0 ks IH]; intros d Hwf Hnd Hin.
  - exists d, []. simpl. repeat split; try tauto.
  - inversion Hnd as [|? ? Hni Hnd']; subst. simpl.
    destruct (dict_mem k0 new_data) eqn:Em.
    + destruct (IH d Hwf Hnd') as (d' & tr & E & Hdel & Hkeep & Hmsg).
      { intros k I. apply Hin. now right. }
      exists d', tr. split; [exact E|]. split; [|split].
      * intros k [->|I] Hm; [congruence | now apply Hdel].
      * intros k [Hn|Hm].
        -- apply Hkeep. left. intros I. apply Hn. now right.
        -- apply Hkeep. now right.
      * intros ef I. destruct (Hmsg ef I) as (k & r & ? & ? & ? & ?).
        exists k, r. repeat split; auto.
    + destruct (dict_get k0 d) as [r0|] eqn:Eg;
        [|exfalso; apply (Hin k0); [now left | exact Eg]].
      assert (forall k, In k ks -> dict_get k (dict_pop k0 d) = dict_get k d)
        as Hpop.
      { intros k I. apply dict_get_pop_other. intros ->. contradiction. }
      destruct (IH (dict_pop k0 d) (wf_pop k0 d Hwf) Hnd')
        as (d' & tr & E & Hdel & Hkeep & Hmsg).
      { intros k I. rewrite (Hpop k I). apply Hin. now right. }
      rewrite E. exists d', (Notify (Deleted k0 (label r0)) :: tr).
      split; [reflexivity|]. split; [|split].
      * intros k [->|I] Hm.
        -- destruct (Hkeep k (or_introl Hni)) as [Hg Hc].
           rewrite Hg, (dict_get_pop_same k d Hwf).
           split; [reflexivity|].
           unfold count in *. simpl. rewrite String.eqb_refl. simpl.
           now rewrite Hc.
        -- destruct (Hdel k I Hm) as [Hg Hc]. split; [exact Hg|].
           unfold count in *. simpl.
           destruct (String.eqb_spec k0 k) as [->|_]; [contradiction|].
           exact Hc.
      * intros k Hk.
        assert (k <> k0) as Hne.
        { intros ->. destruct Hk as [Hn|Hm]; [apply Hn; now left | congruence]. }
        destruct (Hkeep k) as [Hg Hc].
        { destruct Hk as [Hn|Hm]; [left | now right].
          intros I. apply Hn. now right. }
        rewrite Hg, (dict_get_pop_other k0 k d Hne).
        split; [reflexivity|].
        unfold count in *. simpl.
        destruct (String.eqb_spec k0 k) as [->|_]; [contradiction|].
        exact Hc.
      * intros ef [<-|I].
        -- exists k0, r0. repeat split; auto.
        -- destruct (Hmsg ef I) as (k & r & ? & Hk & Hg & ?).
           exists k, r. repeat split; auto.
           now rewrite <- (Hpop k Hk).
Qed.

End Pass2Facts.

(** ** The history filter *)

Lemma collect_changes_ok (t : string) (history : list hevent) (cs : list change) :
  collect_changes t history = Ok cs ->
  Forall dated history
  /\ cs = map change_of (filter (created_after t) history).
Proof.
  revert cs. induction history as [|h history IH]; simpl; intros cs H.
  - injection H as <-. split; [constructor | reflexivity].
  - unfold newer, created_after in *.
    destruct (created h) as [| |c] eqn:Ec; try discriminate.
    destruct (collect_changes t history) as [cs0|ex]; [|discriminate].
    destruct (IH cs0 eq_refl) as [Hd ->]. injection H as <-.
    split.
    + constructor; [now exists c | exact Hd].
    + now destruct (str_gt c t).
Qed.

Lemma collect_changes_dated (t : string) (history : list hevent) :
  Forall dated history ->
  collect_changes t history
  = Ok (map change_of (filter (created_after t) history)).
Proof.
  induction 1 as [|h history [c Hc] _ IH]; simpl; [reflexivity|].
  unfold newer, created_after. rewrite Hc, IH.
  now destruct (str_gt c t).
Qed.

Lemma updated_msg_inv (k lbl : string) (history : list hevent)
  (cs : list change) (out : list effect) (ef : effect) :
  updated_msg k lbl history cs = Ok out -> In ef out ->
  exists h who,
    last_event history = Some h /\ actor_name h = Ok who /\ cs <> []
    /\ ef = Notify (Updated k lbl who (created_text h) cs).
Proof.
  unfold updated_msg. destruct cs as [|c cs]; [now intros [= <-] []|].
  destruct (last_event history) as [h|]; [|now intros [= <-] []].
  destruct (actor_name h) as [who|ex] eqn:Ea; [|discriminate].
  intros [= <-] [<-|[]]. exists h, who. repeat split; auto. discriminate.
Qed.

(** ** What one iteration can emit *)

Section StepTrace.

Variable hist : string -> hresp.

Lemma step_effect_inv (d : dict) (k : string) (e : employee)
  (r : result dict) (out : list effect) (ef : effect) :
  step hist d k e = (r, out) -> In ef out ->
  match ef with
  | Notify (Created k' lbl) =>
      k' = k /\ lbl = label e /\ dict_get k d = None
  | Notify (Updated k' lbl who when cs) =>
      k' = k /\ lbl = label e
      /\ exists old history h,
           dict_get k d = Some old
           /\ opt_eqb (updated e) (updated old) = false
           /\ hist k = HOk history
           /\ collect_changes (last_time (updated old)) history = Ok cs
           /\ cs <> []
           /\ last_event history = Some h
           /\ actor_name h = Ok who
           /\ when = created_text h
  | HistoryGet k' =>
      k' = k
      /\ exists old, dict_get k d = Some old
                     /\ opt_eqb (updated e) (updated old) = false
  | LogHistoryError lbl err => lbl = label e /\ hist k = HErr err
  | _ => False
  end.
Proof.
  unfold step.
  destruct (dict_get k d) as [old|] eqn:Eg.
  2:{ intros [= <- <-] [<-|[]]. auto. }
  destruct (opt_eqb (updated e) (updated old)) eqn:Eu.
  { now intros [= <- <-] []. }
  assert (exists old0, Some old = Some old0
                       /\ opt_eqb (updated e) (updated old0) = false) as Hget
      by (now exists old).
  destruct (hist k) as [err|[|h0 history]] eqn:Eh.
  - intros [= <- <-] [<-|[<-|[]]]; auto.
  - intros [= <- <-] [<-|[]]; auto.
  - fold (last_time (updated old)).
    destruct (collect_changes _ _) as [cs|ex] eqn:Ec.
    2:{ intros [= <- <-] [<-|[]]; auto. }
    destruct (updated_msg _ _ _ _) as [o|ex] eqn:Em.
    2:{ intros [= <- <-] [<-|[]]; auto. }
    intros [= <- <-] [<-|I]; [auto|].
    destruct (updated_msg_inv _ _ _ _ _ _ Em I) as (h & who & Hl & Ha & Hn & ->).
    split; [reflexivity|]. split; [reflexivity|].
    exists old, (h0 :: history), h. repeat split; auto.
Qed.

(** Every effect of pass 1 is the effect of the iteration of some item,
    run on a dictionary that agrees with the initial one on that key
    when the keys are distinct. *)
Lemma pass1_effect_inv (items : list (string * employee)) :
  forall (d : dict) (r : result dict) (tr : list effect) (ef : effect),
    pass1 hist items d = (r, tr) -> In ef tr ->
    exists k e dk rk outk,
      In (k, e) items
      /\ step hist dk k e = (rk, outk)
      /\ In ef outk
      /\ (NoDup (map fst items) -> dict_get k dk = dict_get k d).
Proof.
  induction items as [|[k1 e1] items IH]; simpl; intros d r tr ef H I.
  - injection H as _ <-. contradiction.
  - destruct (step hist d k1 e1) as [[d1|ex] out] eqn:Es.
    + destruct (pass1 hist items d1) as [r1 tr1] eqn:Ep.
      injection H as _ <-. apply in_app_or in I. destruct I as [I|I].
      * exists k1, e1, d, (Ok d1), out. repeat split; auto.
      * destruct (IH d1 r1 tr1 ef Ep I) as (k & e & dk & rk & outk & Hi & Hs & Ho & Hg).
        exists k, e, dk, rk, outk. repeat split; auto.
        intros Hnd. inversion Hnd as [|? ? Hni Hnd']; subst.
        rewrite (Hg Hnd'). eapply step_other; [eassumption|].
        intros ->. apply Hni. change k1 with (fst (k1, e)). now apply in_map.
    + injection H as _ <-.
      exists k1, e1, d, (Raised ex), out. repeat split; auto.
Qed.

(** When pass 1 ends, every item had its iteration. *)
Lemma pass1_effect_intro (items : list (string * employee)) :
  forall (d w : dict) (tr : list effect) (k : string) (e : employee),
    NoDup (map fst items) ->
    pass1 hist items d = (Ok w, tr) -> In (k, e) items ->
    exists dk dk' outk,
      step hist dk k e = (Ok dk', outk)
      /\ dict_get k dk = dict_get k d
      /\ incl outk tr.
Proof.
  induction items as [|[k1 e1] items IH]; simpl; intros d w tr k e Hnd H I.
  - contradiction.
  - inversion Hnd as [|? ? Hni Hnd']; subst.
    destruct (step hist d k1 e1) as [[d1|ex] out] eqn:Es; [|discriminate].
    destruct (pass1 hist items d1) as [r1 tr1] eqn:Ep.
    injection H as -> <-. destruct I as [E|I].
    + injection E as -> ->. exists d, d1, out.
      repeat split; auto. now apply incl_appl, incl_refl.
    + destruct (IH d1 w tr1 k e Hnd' Ep I) as (dk & dk' & outk & Hs & Hg & Hi).
      exists dk, dk', outk. repeat split; auto.
      * rewrite Hg. eapply step_other; [eassumption|].
        intros ->. apply Hni. change k1 with (fst (k1, e)). now apply in_map.
      * now apply incl_appr.
Qed.

End StepTrace.

(** ** The two passes together *)

Section ReconcileFacts.

Variable hist : string -> hresp.

Lemma reconcile_ok_inv (old_data new_data next : dict) (tr : list effect) :
  reconcile hist old_data new_data = (Ok next, tr) ->
  exists w tr1 tr2,
    pass1 hist new_data old_data = (Ok w, tr1)
    /\ pass2 (keys w) new_data w = (Ok next, tr2)
    /\ tr = (tr1 ++ tr2)%list.
Proof.
  unfold reconcile.
  destruct (pass1 hist new_data old_data) as [[w|ex] tr1]; [|discriminate].
  destruct (pass2 (keys w) new_data w) as [res tr2] eqn:E2.
  intros [= -> <-]. now exists w, tr1, tr2.
Qed.

Lemma reconcile_inv (old_data new_data : dict) (r : result dict)
  (tr : list effect) :
  reconcile hist old_data new_data = (r, tr) ->
  exists r1 tr1 tr2,
    pass1 hist new_data old_data = (r1, tr1)
    /\ tr = (tr1 ++ tr2)%list
    /\ (forall ef, In ef tr2 -> exists k l, ef = Notify (Deleted k l)).
Proof.
  unfold reconcile.
  destruct (pass1 hist new_data old_data) as [[w|ex] tr1] eqn:E1.
  - destruct (pass2 (keys w) new_data w) as [res tr2] eqn:E2.
    intros [= <- <-]. exists (Ok w), tr1, tr2.
    repeat split; auto.
    clear E1. revert E2. generalize (keys w) as ks. revert w res tr2.
    intros w res tr2 ks. revert w res tr2.
    induction ks as [|k ks IH]; simpl; intros w res tr2 E ef I.
    + injection E as _ <-. contradiction.
    + destruct (dict_mem k new_data); [eapply IH; eassumption|].
      destruct (dict_get k w) as [r|]; [|injection E as _ <-; contradiction].
      destruct (pass2 ks new_data (dict_pop k w)) as [res' tr'] eqn:E'.
      injection E as _ <-. destruct I as [<-|I]; [now eauto|].
      eapply IH; eassumption.
  - intros [= <- <-]. exists (Raised ex), tr1, [].
    repeat split; auto; [now rewrite app_nil_r | intros ef []].
Qed.

(** Once pass 1 has ended, pass 2 ends too. *)
Lemma reconcile_after_pass1 (old_data new_data w : dict) (tr1 : list effect) :
  wf old_data ->
  pass1 hist new_data old_data = (Ok w, tr1) ->
  exists next tr2,
    reconcile hist old_data new_data = (Ok next, (tr1 ++ tr2)%list)
    /\ (forall k, dict_get k w <> None -> dict_mem k new_data = false ->
                  dict_get k next = None
                  /\ count (is_deleted_for k) tr2 = 1%nat)
    /\ (forall k, dict_get k w = None \/ dict_mem k new_data = true ->
                  dict_get k next = dict_get k w
                  /\ count (is_deleted_for k) tr2 = 0%nat)
    /\ (forall ef, In ef tr2 ->
          exists k r, ef = Notify (Deleted k (label r))
                      /\ dict_get k w = Some r
                      /\ dict_mem k new_data = false).
Proof.
  intros Hwf E1.
  assert (wf w) as Hw by (eapply pass1_wf; eassumption).
  destruct (pass2_spec new_data (keys w) w Hw Hw)
    as (next & tr2 & E2 & Hdel & Hkeep & Hmsg).
  { intros k I. rewrite dict_get_none_iff. tauto. }
  exists next, tr2. unfold reconcile. rewrite E1, E2.
  split; [reflexivity|]. split; [|split].
  - intros k Hk Hm. apply Hdel; [|exact Hm].
    destruct (in_dec string_dec k (keys w)) as [I|N]; [exact I|].
    apply dict_get_none_iff in N. contradiction.
  - intros k [Hk|Hm]; apply Hkeep; [left | now right].
    now apply dict_get_none_iff.
  - intros ef I. destruct (Hmsg ef I) as (k & r & ? & ? & ? & ?).
    now exists k, r.
Qed.

(** Pass 1 sends no [DELETED] message. *)
Lemma pass1_no_deleted (items : list (string * employee)) (d : dict)
  (r : result dict) (tr : list effect) (k : string) :
  pass1 hist items d = (r, tr) -> count (is_deleted_for k) tr = 0%nat.
Proof.
  intros H. unfold count.
  destruct (filter (is_deleted_for k) tr) as [|ef l] eqn:Ef; [reflexivity|].
  assert (In ef (filter (is_deleted_for k) tr)) as I by (rewrite Ef; now left).
  apply filter_In in I. destruct I as [I Hd].
  destruct (pass1_effect_inv hist items d r tr ef H I)
    as (k1 & e1 & dk & rk & outk & _ & Hs & Ho & _).
  pose proof (step_effect_inv hist dk k1 e1 rk outk ef Hs Ho) as Hinv.
  destruct ef as [[| |]| | | | | |]; simpl in Hd; try discriminate.
  contradiction.
Qed.

(** Nothing happens on records whose time stamp has not moved. *)
Lemma pass1_unchanged (items : list (string * employee)) (d : dict) :
  (forall k e, In (k, e) items ->
     exists o, dict_get k d = Some o /\ updated e = updated o) ->
  pass1 hist items d = (Ok d, []).
Proof.
  induction items as [|[k e] items IH]; simpl; intros H; [reflexivity|].
  destruct (H k e (or_introl eq_refl)) as (o & Hg & Hu).
  unfold step. rewrite Hg, Hu, opt_eqb_refl.
  rewrite IH; [reflexivity|]. intros k' e' I. apply H. now right.
Qed.

End ReconcileFacts.

(** ** Shared consequences *)

Section Consequences.

Variable hist : string -> hresp.

(** The snapshot that a completed pass leaves, key by key. *)
Lemma reconcile_entry (old_data new_data next : dict) (tr : list effect)
  (k : string) :
  wf old_data -> wf new_data ->
  reconcile hist old_data new_data = (Ok next, tr) ->
  dict_get k next
  = match dict_get k new_data with
    | None => None
    | Some e => Some (entry_after hist (dict_get k old_data) k e)
    end.
Proof.
  intros Hwo Hwn H.
  destruct (reconcile_ok_inv hist _ _ _ _ H) as (w & tr1 & tr2 & E1 & E2 & ->).
  destruct (reconcile_after_pass1 hist _ _ _ _ Hwo E1)
    as (next' & tr2' & H' & Hdel & Hkeep & _).
  rewrite H in H'. injection H' as -> _.
  destruct (dict_get k new_data) as [e|] eqn:En.
  - destruct (Hkeep k) as [-> _].
    { right. unfold dict_mem. now rewrite En. }
    eapply pass1_same; [exact Hwn | exact E1 | now apply dict_get_some_in].
  - destruct (dict_get k w) as [r|] eqn:Ew.
    + apply Hdel; [now rewrite Ew | unfold dict_mem; now rewrite En].
    + destruct (Hkeep k) as [-> _]; [now left | exact Ew].
Qed.

(** An [UPDATED] message comes from a record of the catalogue whose
    time stamp differs from the stored one and whose history was read. *)
Lemma reconcile_updated_inv (old_data new_data : dict) (r : result dict)
  (tr : list effect) (k lbl who when : string) (cs : list change) :
  reconcile hist old_data new_data = (r, tr) ->
  In (Notify (Updated k lbl who when cs)) tr ->
  exists e old history h,
    In (k, e) new_data
    /\ lbl = label e
    /\ (wf new_data -> dict_get k old_data = Some old)
    /\ updated e <> updated old
    /\ hist k = HOk history
    /\ collect_changes (last_time (updated old)) history = Ok cs
    /\ cs <> []
    /\ last_event history = Some h
    /\ actor_name h = Ok who
    /\ when = created_text h.
Proof.
  intros H I.
  destruct (reconcile_inv hist _ _ _ _ H) as (r1 & tr1 & tr2 & E1 & -> & Hd).
  apply in_app_or in I. destruct I as [I|I].
  2:{ destruct (Hd _ I) as (? & ? & ?). discriminate. }
  destruct (pass1_effect_inv hist _ _ _ _ _ E1 I)
    as (k1 & e1 & dk & rk & outk & Hi & Hs & Ho & Hg).
  pose proof (step_effect_inv hist _ _ _ _ _ _ Hs Ho) as Hinv. simpl in Hinv.
  destruct Hinv as (-> & -> & old & history & h & Hgo & Hu & Hh & Hc & Hn & Hl & Ha & Hw).
  exists e1, old, history, h.
  repeat split; auto.
  - intros Hwn. now rewrite <- (Hg Hwn).
  - intros E. rewrite E, opt_eqb_refl in Hu. discriminate.
Qed.

(** A stored record whose time stamp differs has its history requested. *)
Lemma step_requests_history (d : dict) (k : string) (e o : employee)
  (r : result dict) (out : list effect) :
  dict_get k d = Some o -> updated e <> updated o ->
  step hist d k e = (r, out) -> In (HistoryGet k) out.
Proof.
  intros Hg Hu. unfold step. rewrite Hg.
  destruct (opt_eqb_spec (updated e) (updated o)); [contradiction|].
  destruct (hist k) as [err|[|h0 history]];
    try (intros [= _ <-]; now left).
  destruct (collect_changes _ _) as [cs|ex]; [|intros [= _ <-]; now left].
  destruct (updated_msg _ _ _ _) as [m|ex]; intros [= _ <-]; now left.
Qed.

End Consequences.

(** ** Runs that end *)

Section Totality.

Variable hist : string -> hresp.
Hypothesis Hshape : well_shaped hist.

Lemma step_total (d : dict) (k : string) (e : employee) :
  exists d' out, step hist d k e = (Ok d', out).
Proof.
  unfold step.
  destruct (dict_get k d) as [old|]; [|eauto].
  destruct (opt_eqb (updated e) (updated old)); [eauto|].
  destruct (hist k) as [err|[|h0 history]] eqn:Eh; [eauto | eauto |].
  destruct (Hshape k _ Eh) as [Hd Ha].
  rewrite (collect_changes_dated _ _ Hd).
  unfold updated_msg.
  destruct (map change_of _) as [|c cs]; [eauto|].
  destruct (last_event (h0 :: history)) as [h|] eqn:El; [|eauto].
  specialize (Ha h eq_refl). unfold actor_name.
  destruct (actor h); [eauto | contradiction | eauto].
Qed.

Lemma pass1_total (items : list (string * employee)) :
  forall d, exists w tr, pass1 hist items d = (Ok w, tr).
Proof.
  induction items as [|[k e] items IH]; intros d; simpl; [eauto|].
  destruct (step_total d k e) as (d' & out & ->).
  destruct (IH d') as (w & tr & ->). eauto.
Qed.

(** On well-shaped histories a pass ends and returns a snapshot. *)
Lemma reconcile_total (old_data new_data : dict) :
  wf old_data ->
  exists next tr, reconcile hist old_data new_data = (Ok next, tr).
Proof.
  intros Hwf. destruct (pass1_total new_data old_data) as (w & tr1 & E1).
  destruct (reconcile_after_pass1 hist _ _ _ _ Hwf E1) as (next & tr2 & H & _).
  eauto.
Qed.

End Totality.

(** ** The run *)

(** What [main] writes is the snapshot that the two passes return. *)
Lemma main_saves_reconciled (get_page : nat -> response)
  (hist : string -> hresp) (fuel : nat) (l : list employee)
  (new_data next : dict) (tr1 tr2 : list effect) :
  fetch_employees get_page fuel = Some (new_data, tr1) ->
  reconcile hist (of_list l) new_data = (Ok next, tr2) ->
  main get_page hist fuel (Some l)
  = Some {| file_after := Some (values next);
            uncaught := None;
            trace := (LogStarted :: tr1 ++ tr2 ++ [LogFinished])%list |}.
Proof.
  intros Hf Hr. unfold main, load_employees. now rewrite Hf, Hr.
Qed.

(** An exception leaves the file as it was. *)
Lemma main_raised_keeps_file (get_page : nat -> response)
  (hist : string -> hresp) (fuel : nat) (l : list employee)
  (new_data : dict) (tr1 tr2 : list effect) (ex : exn) :
  fetch_employees get_page fuel = Some (new_data, tr1) ->
  reconcile hist (of_list l) new_data = (Raised ex, tr2) ->
  main get_page hist fuel (Some l)
  = Some {| file_after := Some l;
            uncaught := Some ex;
            trace := (LogStarted :: tr1 ++ tr2)%list |}.
Proof.
  intros Hf Hr. unfold main, load_employees. now rewrite Hf, Hr.
Qed.

(** The text of a message, as Slack receives it. *)
Example render_deleted :
  render "https://jira.example" (Deleted "3" "Carol")
  = "[DELETED] Carol (HR-3)".
Proof. reflexivity. Qed.

Example render_created :
  render "https://jira.example" (Created "2" "Bob")
  = "[CREATED] *<https://jira.example/secure/ShowObject.jspa?id=2|Bob>* (HR-2)".
Proof. reflexivity. Qed.

(** * The properties of the specification *)

(** C8. Running a pass with the catalogue equal to the snapshot reports
    nothing, requests no history, and gives the snapshot back as it was. *)
Theorem reconcile_same_is_noop (hist : string -> hresp) (snap : dict) :
  wf snap -> reconcile hist snap snap = (Ok snap, []).
Proof.
  intros Hwf. unfold reconcile.
  rewrite pass1_unchanged.
  - rewrite pass2_noop; [reflexivity|].
    intros k I. unfold dict_mem.
    destruct (dict_get k snap) eqn:E; [reflexivity|].
    apply dict_get_none_iff in E. contradiction.
  - intros k e I. exists e. split; [now apply dict_get_in | reflexivity].
Qed.

Lemma wf_scenario_current : wf Scenario.current.
Proof.
  unfold wf. simpl. repeat constructor; simpl; intuition discriminate.
Defined.

Lemma reconcile_same_is_noop_witness :
  reconcile Scenario.hist Scenario.current Scenario.current
  = (Ok Scenario.current, []).
Proof.
  apply (reconcile_same_is_noop Scenario.hist Scenario.current).
  exact wf_scenario_current.
Defined.

(** C9. When pass 1 has ended with the working snapshot [w], the run ends,
    and every id that [w] holds and the catalogue lacks gets exactly one
    [DELETED] message, which carries the label stored in [w]; the id is
    not in the next snapshot. *)
Theorem deleted_exactly_once (hist : string -> hresp)
  (old_data new_data w : dict) (tr1 : list effect) (k : string) (r : employee) :
  wf old_data ->
  pass1 hist new_data old_data = (Ok w, tr1) ->
  dict_get k w = Some r ->
  dict_get k new_data = None ->
  exists next tr,
    reconcile hist old_data new_data = (Ok next, tr)
    /\ count (is_deleted_for k) tr = 1%nat
    /\ In (Notify (Deleted k (label r))) tr
    /\ (forall ef, In ef tr -> is_deleted_for k ef = true ->
                   ef = Notify (Deleted k (label r)))
    /\ dict_get k next = None.
Proof.
  intros Hwf E1 Hw Hn.
  destruct (reconcile_after_pass1 hist _ _ _ _ Hwf E1)
    as (next & tr2 & H & Hdel & _ & Hmsg).
  assert (dict_mem k new_data = false) as Hm by (unfold dict_mem; now rewrite Hn).
  destruct (Hdel k) as [Hg Hc]; [now rewrite Hw | exact Hm |].
  assert (forall ef, In ef (tr1 ++ tr2) -> is_deleted_for k ef = true ->
                     ef = Notify (Deleted k (label r))) as Hall.
  { intros ef I Hd. apply in_app_or in I. destruct I as [I|I].
    - pose proof (pass1_no_deleted hist _ _ _ _ k E1) as H0.
      unfold count in H0. apply length_zero_iff_nil in H0.
      assert (In ef (filter (is_deleted_for k) tr1)) as F
          by (apply filter_In; now split).
      rewrite H0 in F. contradiction.
    - destruct (Hmsg ef I) as (k' & r' & -> & Hg' & _). simpl in Hd.
      apply String.eqb_eq in Hd. subst k'. congruence. }
  exists next, (tr1 ++ tr2)%list. repeat split; auto.
  - rewrite count_app, Hc, (pass1_no_deleted hist _ _ _ _ k E1). reflexivity.
  - unfold count in Hc.
    destruct (filter (is_deleted_for k) tr2) as [|ef l] eqn:Ef; [discriminate|].
    assert (In ef (filter (is_deleted_for k) tr2)) as F by (rewrite Ef; now left).
    apply filter_In in F. destruct F as [I Hd].
    rewrite <- (Hall ef); auto; apply in_or_app; now right.
Qed.

Lemma deleted_exactly_once_witness :
  exists next tr,
    reconcile Scenario.hist [("1", Inputs.alice1); ("3", Inputs.carol1)]
      Scenario.current = (Ok next, tr)
    /\ count (is_deleted_for "3") tr = 1%nat
    /\ In (Notify (Deleted "3" "Carol")) tr
    /\ (forall ef, In ef tr -> is_deleted_for "3" ef = true ->
                   ef = Notify (Deleted "3" "Carol"))
    /\ dict_get "3" next = None.
Proof.
  eapply (deleted_exactly_once Scenario.hist
            [("1", Inputs.alice1); ("3", Inputs.carol1)] Scenario.current
            _ _ "3" Inputs.carol1).
  - unfold wf. simpl. repeat constructor; simpl; intuition discriminate.
  - reflexivity.
  - reflexivity.
  - reflexivity.
Defined.

(** C10. A snapshot whose keys are the string forms of the ids of its
    records is read back from the file that [save_employees] writes. *)
Theorem save_then_load (get_page : nat -> response) (fuel : nat) (d : dict) :
  wf d -> keyed d ->
  load_employees get_page fuel (Some (save_employees d))
  = Some (d, Some (save_employees d), []).
Proof.
  intros Hwf Hk. unfold load_employees, save_employees, of_list.
  enough (forall acc : dict,
            NoDup (keys acc ++ keys d) ->
            of_list_from acc (values d) = (acc ++ d)%list) as G.
  { now rewrite (G [] Hwf). }
  clear Hwf. induction d as [|[k v] d IH]; intros acc Hnd; simpl.
  - now rewrite app_nil_r.
  - inversion Hk as [|? ? Hkv Hk']; subst. simpl in Hkv. subst k.
    unfold of_list_from in *. simpl in Hnd.
    rewrite dict_set_absent.
    + rewrite IH; [now rewrite <- app_assoc | exact Hk' |].
      unfold keys in *. rewrite map_app. simpl.
      rewrite <- app_assoc. exact Hnd.
    + apply dict_get_none_iff. intros I.
      apply NoDup_remove_2 in Hnd. apply Hnd. apply in_or_app. now left.
Qed.

Lemma save_then_load_witness :
  load_employees (fun _ => mk_response 500 []) 0
    (Some (save_employees Scenario.current))
  = Some (Scenario.current, Some (save_employees Scenario.current), []).
Proof.
  apply (save_then_load (fun _ => mk_response 500 []) 0 Scenario.current).
  - exact wf_scenario_current.
  - unfold keyed. repeat constructor.
Defined.

Lemma wf_before : wf Inputs.before.
Proof.
  unfold wf. simpl. repeat constructor; simpl; intuition discriminate.
Defined.

Lemma wf_after : wf Inputs.after.
Proof.
  unfold wf. simpl. repeat constructor; simpl; intuition discriminate.
Defined.

(** C2, as the specification states it, fails: on [Inputs.before],
    [Inputs.after] and [Inputs.renamed] the run ends and saves
    [Inputs.kept], where object 1 still has the label of the old snapshot
    although the catalogue renamed it, and object 2 still has the old time
    stamp although its history request did not fail (it was empty). *)
Lemma snapshot_guarantee_counterexample :
  reconcile Inputs.renamed Inputs.before Inputs.after
  = (Ok Inputs.kept,
     [HistoryGet "1";
      Notify (Updated "1" "Alicia" "Dave" Inputs.ts2
                [mk_change "Name" "Alice" "Alicia"]);
      HistoryGet "2"])
  /\ ~ Specified.snapshot_guarantee Inputs.renamed Inputs.before Inputs.after
         Inputs.kept
  /\ (exists r e, dict_get "1" Inputs.kept = Some r
                  /\ dict_get "1" Inputs.after = Some e
                  /\ label r <> label e)
  /\ (exists r e, dict_get "2" Inputs.kept = Some r
                  /\ dict_get "2" Inputs.after = Some e
                  /\ Specified.fetch_failed Inputs.renamed Inputs.before
                       Inputs.after "2" = false
                  /\ updated r <> updated e).
Proof.
  split; [reflexivity|]. split; [|split].
  - intros G. specialize (G "2"). simpl in G.
    destruct G as (r & [= <-] & _ & Hu). discriminate Hu.
  - exists Inputs.alice2, Inputs.alicia2. repeat split. discriminate.
  - exists Inputs.bob1, Inputs.bob3. repeat split. discriminate.
Qed.

(** C2, amended. After a pass that ends, the snapshot holds exactly the
    ids of the catalogue.  An id that the old snapshot lacks is mapped to
    the record of the catalogue.  An id that the old snapshot has keeps the
    old record, label included, with the time stamp of the catalogue,
    unless the time stamp differs and the history request failed or gave
    an empty history: then it keeps the old time stamp. *)
Theorem snapshot_after_pass (hist : string -> hresp)
  (old_data new_data next : dict) (tr : list effect) (k : string) :
  wf old_data -> wf new_data ->
  reconcile hist old_data new_data = (Ok next, tr) ->
  match dict_get k new_data, dict_get k old_data with
  | None, _ => dict_get k next = None
  | Some e, None => dict_get k next = Some e
  | Some e, Some o =>
      dict_get k next
      = Some (set_updated o (if unacknowledged hist k o e
                             then updated o else updated e))
  end.
Proof.
  intros Hwo Hwn H.
  rewrite (reconcile_entry hist _ _ _ _ k Hwo Hwn H).
  destruct (dict_get k new_data) as [e|]; [|reflexivity].
  destruct (dict_get k old_data) as [o|]; [|reflexivity].
  unfold entry_after, acknowledged, unacknowledged. f_equal.
  destruct (opt_eqb_spec (updated e) (updated o)) as [E|N]; simpl.
  - rewrite E. now destruct o.
  - destruct (fetched_nonempty hist k); simpl; [reflexivity | now destruct o].
Qed.

Lemma snapshot_after_pass_witness :
  dict_get "1" Inputs.kept = Some Inputs.alice2
  /\ dict_get "2" Inputs.kept = Some Inputs.bob1.
Proof.
  split.
  - exact (snapshot_after_pass Inputs.renamed Inputs.before Inputs.after
             Inputs.kept _ "1" wf_before wf_after eq_refl).
  - exact (snapshot_after_pass Inputs.renamed Inputs.before Inputs.after
             Inputs.kept _ "2" wf_before wf_after eq_refl).
Defined.

(** C3. When the history request fails for a record whose time stamp
    changed, a pass that ends sends no [UPDATED] message for it and leaves
    its stored record, old time stamp included, as it was; a later pass on
    that snapshot and the same catalogue requests the history again. *)
Theorem history_error_is_retried (hist : string -> hresp)
  (old_data new_data next : dict) (tr : list effect)
  (k err : string) (o e : employee) :
  wf old_data -> wf new_data ->
  dict_get k old_data = Some o ->
  dict_get k new_data = Some e ->
  updated e <> updated o ->
  hist k = HErr err ->
  reconcile hist old_data new_data = (Ok next, tr) ->
  count (is_updated_for k) tr = 0%nat
  /\ dict_get k next = Some o
  /\ (forall hist' next' tr',
        reconcile hist' next new_data = (Ok next', tr') ->
        In (HistoryGet k) tr').
Proof.
  intros Hwo Hwn Ho He Hu Hh H. split; [|split].
  - unfold count.
    destruct (filter (is_updated_for k) tr) as [|ef l] eqn:Ef; [reflexivity|].
    assert (In ef (filter (is_updated_for k) tr)) as I by (rewrite Ef; now left).
    apply filter_In in I. destruct I as [I Hd].
    destruct ef as [[| k' lbl who when cs |]| | | | | |]; simpl in Hd;
      try discriminate.
    apply String.eqb_eq in Hd. subst k'.
    destruct (reconcile_updated_inv hist _ _ _ _ _ _ _ _ _ H I)
      as (? & ? & history & ? & _ & _ & _ & _ & Hh' & _).
    congruence.
  - pose proof (reconcile_entry hist _ _ _ _ k Hwo Hwn H) as G.
    rewrite He, Ho in G. rewrite G. simpl.
    unfold acknowledged, fetched_nonempty. rewrite Hh.
    now rewrite andb_false_r.
  - intros hist' next' tr' H'.
    assert (dict_get k next = Some o) as Hn.
    { pose proof (reconcile_entry hist _ _ _ _ k Hwo Hwn H) as G.
      rewrite He, Ho in G. rewrite G. simpl.
      unfold acknowledged, fetched_nonempty. rewrite Hh.
      now rewrite andb_false_r. }
    destruct (reconcile_ok_inv hist' _ _ _ _ H') as (w & tr1 & tr2 & E1 & _ & ->).
    destruct (pass1_effect_intro hist' new_data next w tr1 k e Hwn E1)
      as (dk & dk' & outk & Hs & Hg & Hi).
    { now apply dict_get_some_in. }
    apply in_or_app. left. apply Hi.
    eapply step_requests_history; [|exact Hu|exact Hs]. now rewrite Hg.
Qed.

Lemma history_error_is_retried_witness :
  count (is_updated_for "1") [HistoryGet "1"; LogHistoryError "Alice" "503 Server Error"]
  = 0%nat
  /\ dict_get "1" [("1", Inputs.alice1)] = Some Inputs.alice1
  /\ (forall hist' next' tr',
        reconcile hist' [("1", Inputs.alice1)] [("1", Inputs.alice2)]
        = (Ok next', tr') ->
        In (HistoryGet "1") tr').
Proof.
  apply (history_error_is_retried Inputs.down
           [("1", Inputs.alice1)] [("1", Inputs.alice2)]
           [("1", Inputs.alice1)] _ "1" "503 Server Error"
           Inputs.alice1 Inputs.alice2).
  - unfold wf. simpl. repeat constructor. simpl. tauto.
  - unfold wf. simpl. repeat constructor. simpl. tauto.
  - reflexivity.
  - reflexivity.
  - simpl. discriminate.
  - reflexivity.
  - reflexivity.
Defined.

Lemma last_event_app (front : list hevent) (h : hevent) :
  last_event (front ++ [h]) = Some h.
Proof.
  unfold last_event. rewrite map_app. simpl. apply last_last.
Qed.

Lemma last_event_inv (history : list hevent) (h : hevent) :
  last_event history = Some h -> exists front, history = (front ++ [h])%list.
Proof.
  destruct history as [|h0 history]; [discriminate|].
  destruct (@exists_last _ (h0 :: history)) as (front & x & E); [discriminate|].
  rewrite E, last_event_app. intros [= ->]. now exists front.
Qed.

(** C5, as the specification states it, fails: for the entry
    [Inputs.first_manager], whose attribute is null and whose old value
    is the empty string, the message shows ["None"] for both, where the
    specification has the dash for the attribute and the empty string for
    the old value. *)
Lemma field_change_counterexample :
  reconcile Inputs.sparse [("1", Inputs.alice1)] [("1", Inputs.alice2)]
  = (Ok [("1", Inputs.alice2)],
     [HistoryGet "1";
      Notify (Updated "1" "Alice" "Carol" Inputs.ts2
                [mk_change "None" "None" "Grace"])])
  /\ Specified.field_change Inputs.first_manager
     = mk_change "—" EmptyString "Grace"
  /\ change_of Inputs.first_manager
     <> Specified.field_change Inputs.first_manager.
Proof.
  split; [reflexivity|]. split; [reflexivity|]. discriminate.
Qed.

(** C5, amended. The changes of an [UPDATED] message are built from the
    entries that pass the filter, in their order.  The attribute is the
    entry's ["affectedAttribute"], the dash when the key is absent and
    ["None"] when it holds null; the old and the new value are the entry's
    values, and ["None"] when the value is absent, null or the empty
    string. *)
Theorem field_changes_of_update (hist : string -> hresp)
  (old_data new_data : dict) (r : result dict) (tr : list effect)
  (k lbl who when : string) (cs : list change) :
  reconcile hist old_data new_data = (r, tr) ->
  In (Notify (Updated k lbl who when cs)) tr ->
  exists history t,
    hist k = HOk history
    /\ cs = map change_of (filter (created_after t) history)
    /\ (forall h,
          attr (change_of h)
          = match affectedAttribute h with
            | Absent => "—"
            | Null => "None"
            | Str s => s
            end
          /\ old_val (change_of h)
             = match oldValue h with
               | Str s => if (s =? EmptyString)%string then "None" else s
               | _ => "None"
               end
          /\ new_val (change_of h)
             = match newValue h with
               | Str s => if (s =? EmptyString)%string then "None" else s
               | _ => "None"
               end).
Proof.
  intros H I.
  destruct (reconcile_updated_inv hist _ _ _ _ _ _ _ _ _ H I)
    as (e & o & history & h & _ & _ & _ & _ & Hh & Hc & _).
  apply collect_changes_ok in Hc. destruct Hc as [_ Hc].
  exists history, (last_time (updated o)).
  split; [exact Hh|]. split; [exact Hc|].
  intros h'. unfold change_of. simpl.
  destruct (affectedAttribute h'), (oldValue h'), (newValue h'); auto.
Qed.

Lemma field_changes_of_update_witness :
  exists history t,
    Inputs.sparse "1" = HOk history
    /\ [mk_change "None" "None" "Grace"]
       = map change_of (filter (created_after t) history)
    /\ (forall h,
          attr (change_of h)
          = match affectedAttribute h with
            | Absent => "—"
            | Null => "None"
            | Str s => s
            end
          /\ old_val (change_of h)
             = match oldValue h with
               | Str s => if (s =? EmptyString)%string then "None" else s
               | _ => "None"
               end
          /\ new_val (change_of h)
             = match newValue h with
               | Str s => if (s =? EmptyString)%string then "None" else s
               | _ => "None"
               end).
Proof.
  apply (field_changes_of_update Inputs.sparse
           [("1", Inputs.alice1)] [("1", Inputs.alice2)]
           (Ok [("1", Inputs.alice2)])
           [HistoryGet "1";
            Notify (Updated "1" "Alice" "Carol" Inputs.ts2
                      [mk_change "None" "None" "Grace"])]
           "1" "Alice" "Carol" Inputs.ts2).
  - reflexivity.
  - simpl. tauto.
Defined.

(** C7. The actor and the date of an [UPDATED] message are read from the
    last entry of the history as the endpoint returned it, whether or not
    that entry is among the reported ones. *)
Theorem update_attributed_to_last_entry (hist : string -> hresp)
  (old_data new_data : dict) (r : result dict) (tr : list effect)
  (k lbl who when : string) (cs : list change) :
  reconcile hist old_data new_data = (r, tr) ->
  In (Notify (Updated k lbl who when cs)) tr ->
  exists front h,
    hist k = HOk (front ++ [h])
    /\ actor_name h = Ok who
    /\ when = created_text h.
Proof.
  intros H I.
  destruct (reconcile_updated_inv hist _ _ _ _ _ _ _ _ _ H I)
    as (e & o & history & h & _ & _ & _ & _ & Hh & _ & _ & Hl & Ha & Hw).
  destruct (last_event_inv history h Hl) as [front ->].
  now exists front, h.
Qed.

Lemma update_attributed_to_last_entry_witness :
  exists front h,
    Inputs.newest_first "1" = HOk (front ++ [h])
    /\ actor_name h = Ok "Eve"
    /\ Inputs.ts0 = created_text h.
Proof.
  apply (update_attributed_to_last_entry Inputs.newest_first
           [("1", Inputs.alice1)] [("1", Inputs.alice2)]
           (Ok [("1", Inputs.alice2)])
           [HistoryGet "1";
            Notify (Updated "1" "Alice" "Eve" Inputs.ts0
                      [mk_change "title" "Eng" "Sr Eng"])]
           "1" "Alice" "Eve" Inputs.ts0 [mk_change "title" "Eng" "Sr Eng"]).
  - reflexivity.
  - simpl. tauto.
Defined.

(** The last entry of [Inputs.newest_first] is older than the stored time
    stamp: it names the actor and the date, and is not reported itself. *)
Example attribution_from_unreported_entry :
  reconcile Inputs.newest_first [("1", Inputs.alice1)] [("1", Inputs.alice2)]
  = (Ok [("1", Inputs.alice2)],
     [HistoryGet "1";
      Notify (Updated "1" "Alice" "Eve" Inputs.ts0
                [mk_change "title" "Eng" "Sr Eng"])]).
Proof. reflexivity. Qed.

(** C6 does not hold of the code.  The [try] of lines 104-113 covers the
    request and the decoding only.  On [Inputs.malformed], whose single
    entry has no ["created"], line 121 raises [KeyError] outside it: the
    run stops there, Bob is never reported as created and the snapshot is
    not saved.  On [Inputs.down], a failed request, the same run carries
    on to Bob and saves. *)
Theorem malformed_history_aborts_run (fuel : nat) :
  main Inputs.one_page Inputs.malformed (S fuel) (Some [Inputs.alice1])
  = Some {| file_after := Some [Inputs.alice1];
            uncaught := Some (KeyError "created");
            trace := [LogStarted; HistoryGet "1"] |}
  /\ main Inputs.one_page Inputs.down (S fuel) (Some [Inputs.alice1])
     = Some {| file_after := Some [Inputs.alice1; Inputs.bob3];
               uncaught := None;
               trace := [LogStarted; HistoryGet "1";
                         LogHistoryError "Alice" "503 Server Error";
                         Notify (Created "2" "Bob"); LogFinished] |}.
Proof. split; reflexivity. Qed.

(** A null ["actor"] in the last entry ends the run in the same way, at
    line 128. *)
Example null_actor_aborts_run :
  reconcile
    (fun _ => HOk [mk_hevent (Str Inputs.ts2) (Str "title") (Str "Eng")
                     (Str "Sr Eng") ActorNull])
    [("1", Inputs.alice1)] [("1", Inputs.alice2); ("2", Inputs.bob3)]
  = (Raised AttributeError, [HistoryGet "1"]).
Proof. reflexivity. Qed.

(** C1 does not hold of the code.  The catalogue has 1001 objects and the
    snapshot knows them all.  The first page comes back full, the second
    is refused with status 500: [fetch_employees] logs the error, leaves
    the loop and returns the first page as the catalogue.  The run goes
    on, reports object 1001 as deleted and saves a snapshot without it. *)
Theorem partial_catalogue_is_used (fuel : nat) :
  main Inputs.second_page_refused Inputs.down (S (S fuel))
    (Some (Inputs.first_page ++ [Inputs.zoe])%list)
  = Some {| file_after := Some Inputs.first_page;
            uncaught := None;
            trace := [LogStarted; LogFetchError 500;
                      Notify (Deleted "1001" "Zoe"); LogFinished] |}.
Proof. vm_compute. reflexivity. Qed.

(** When the first page is refused the catalogue is empty, and every
    known employee is reported as deleted. *)
Example refused_catalogue_deletes_all (fuel : nat) :
  main Inputs.unavailable Inputs.down (S fuel)
    (Some [Inputs.alice1; Inputs.bob1])
  = Some {| file_after := Some [];
            uncaught := None;
            trace := [LogStarted; LogFetchError 503;
                      Notify (Deleted "1" "Alice");
                      Notify (Deleted "2" "Bob"); LogFinished] |}.
Proof. reflexivity. Qed.

(** The paging loop: a refused page ends it with what was read so far. *)
Lemma fetch_pages_refused (get_page : nat -> response) (fuel page : nat)
  (employees : list employee) :
  status_code (get_page page) <> 200%Z ->
  fetch_pages get_page (S fuel) page employees
  = Some (employees, [LogFetchError (status_code (get_page page))]).
Proof.
  intros H. simpl.
  destruct (Z.eqb_spec (status_code (get_page page)) 200); [contradiction|].
  reflexivity.
Qed.

(** * Further properties of the code *)

(** ** Effects by object *)

Lemma filter_none {A : Type} (p : A -> bool) (l : list A) :
  (forall x, In x l -> p x = false) -> filter p l = [].
Proof.
  induction l as [|x l IH]; simpl; intros H; [reflexivity|].
  rewrite (H x) by now left. apply IH. intros y I. apply H. now right.
Qed.

Lemma filter_narrow {A : Type} (p q : A -> bool) (l : list A) :
  (forall x, p x = true -> q x = true) ->
  filter p (filter q l) = filter p l.
Proof.
  intros H. induction l as [|x l IH]; simpl; [reflexivity|].
  destruct (q x) eqn:Eq; simpl.
  - now rewrite IH.
  - destruct (p x) eqn:Ep; [|exact IH].
    rewrite (H x Ep) in Eq. discriminate.
Qed.

Lemma is_history_get_about (k : string) (ef : effect) :
  is_history_get k ef = true -> about k ef = true.
Proof. destruct ef as [[| |]| | | | | |]; simpl; auto; discriminate. Qed.

Lemma in_dict_mem (k : string) (e : employee) (d : dict) :
  In (k, e) d -> dict_mem k d = true.
Proof.
  intros I. unfold dict_mem. destruct (dict_get k d) eqn:E; [reflexivity|].
  apply dict_get_none_iff in E. exfalso. apply E.
  change k with (fst (k, e)). now apply in_map.
Qed.

Section AboutFacts.

Variable hist : string -> hresp.

(** An iteration has no effect that names another object. *)
Lemma step_about_other (d : dict) (k k0 : string) (e : employee)
  (r : result dict) (out : list effect) :
  step hist d k e = (r, out) -> k0 <> k -> filter (about k0) out = [].
Proof.
  intros H Hne. apply filter_none. intros ef I.
  pose proof (step_effect_inv hist d k e r out ef H I) as Hinv.
  destruct ef as [[k1 l1|k1 l1 w1 t1 c1|k1 l1]|k1| | | | |]; simpl;
    try reflexivity; try contradiction.
  - destruct Hinv as (-> & _). now apply String.eqb_neq, not_eq_sym.
  - destruct Hinv as (-> & _). now apply String.eqb_neq, not_eq_sym.
  - destruct Hinv as (-> & _). now apply String.eqb_neq, not_eq_sym.
Qed.

(** The effects of an iteration depend on the stored record only. *)
Lemma step_out_ext (d1 d2 : dict) (k : string) (e : employee) :
  dict_get k d1 = dict_get k d2 ->
  snd (step hist d1 k e) = snd (step hist d2 k e).
Proof.
  intros H. unfold step. rewrite H.
  destruct (dict_get k d2) as [old|]; [|reflexivity].
  destruct (opt_eqb (updated e) (updated old)); [reflexivity|].
  destruct (hist k) as [err|[|h0 history]]; try reflexivity.
  destruct (collect_changes _ _) as [cs|ex]; [|reflexivity].
  destruct (updated_msg _ _ _ _) as [o|ex]; reflexivity.
Qed.

(** In a pass 1 that ends, what names [k] is what the iteration of [k]
    does on the snapshot the pass started from. *)
Lemma pass1_about (items : list (string * employee)) :
  forall (d w : dict) (tr : list effect) (k : string),
    NoDup (map fst items) ->
    pass1 hist items d = (Ok w, tr) ->
    (forall e, In (k, e) items ->
       filter (about k) tr = filter (about k) (snd (step hist d k e)))
    /\ (~ In k (map fst items) -> filter (about k) tr = []).
Proof.
  induction items as [|[k1 e1] items IH]; simpl; intros d w tr k Hnd H.
  - injection H as _ <-. split; [contradiction | reflexivity].
  - inversion Hnd as [|? ? Hni Hnd']; subst.
    destruct (step hist d k1 e1) as [[d1|ex] out] eqn:Es; [|discriminate].
    destruct (pass1 hist items d1) as [r1 tr1] eqn:Ep.
    injection H as -> <-.
    destruct (IH d1 w tr1 k Hnd' Ep) as [IHin IHout].
    rewrite filter_app. split.
    + intros e [E|I].
      * injection E as -> ->. rewrite Es. simpl.
        rewrite IHout by exact Hni. now rewrite app_nil_r.
      * assert (k <> k1) as Hne.
        { intros ->. apply Hni. change k1 with (fst (k1, e)). now apply in_map. }
        rewrite (step_about_other d k1 k e1 _ out Es Hne). simpl.
        rewrite (IHin e I). f_equal. apply step_out_ext.
        eapply step_other; eassumption.
    + intros Hn.
      rewrite (step_about_other d k1 k e1 _ out Es) by (intros ->; tauto).
      simpl. apply IHout. tauto.
Qed.

(** The same for both passes, for an id of the catalogue. *)
Lemma reconcile_about (old_data new_data next : dict) (tr : list effect)
  (k : string) (e : employee) :
  wf old_data -> wf new_data ->
  dict_get k new_data = Some e ->
  reconcile hist old_data new_data = (Ok next, tr) ->
  filter (about k) tr = filter (about k) (snd (step hist old_data k e)).
Proof.
  intros Hwo Hwn He H.
  destruct (reconcile_ok_inv hist _ _ _ _ H) as (w & tr1 & tr2 & E1 & E2 & ->).
  destruct (reconcile_after_pass1 hist _ _ _ _ Hwo E1)
    as (next' & tr2' & H' & _ & _ & Hmsg).
  rewrite H in H'. injection H' as _ Ht. apply app_inv_head in Ht. subst tr2'.
  rewrite filter_app.
  destruct (pass1_about new_data old_data w tr1 k Hwn E1) as [Hin _].
  rewrite (Hin e (dict_get_some_in k e new_data He)).
  rewrite (filter_none (about k) tr2); [now rewrite app_nil_r|].
  intros ef I. destruct (Hmsg ef I) as (k' & r' & -> & _ & Hm). simpl.
  apply String.eqb_neq. intros ->.
  unfold dict_mem in Hm. rewrite He in Hm. discriminate.
Qed.

(** An id that the catalogue lacks is named by its [DELETED] message
    only. *)
Lemma reconcile_about_absent (old_data new_data next : dict)
  (tr : list effect) (k : string) :
  wf old_data -> wf new_data ->
  dict_get k new_data = None ->
  reconcile hist old_data new_data = (Ok next, tr) ->
  filter (is_history_get k) tr = [].
Proof.
  intros Hwo Hwn Hn H.
  destruct (reconcile_inv hist _ _ _ _ H) as (r1 & tr1 & tr2 & E1 & -> & Hd).
  apply filter_none. intros ef I. apply in_app_or in I. destruct I as [I|I].
  - destruct (pass1_effect_inv hist _ _ _ _ _ E1 I)
      as (k1 & e1 & dk & rk & outk & Hi & Hs & Ho & _).
    pose proof (step_effect_inv hist _ _ _ _ _ _ Hs Ho) as Hinv.
    destruct ef as [| k' | | | | |]; simpl; try reflexivity.
    destruct Hinv as (-> & _). apply String.eqb_neq. intros ->.
    apply dict_get_none_iff in Hn. apply Hn.
    change k with (fst (k, e1)). now apply in_map.
  - destruct (Hd ef I) as (k' & l' & ->). reflexivity.
Qed.

End AboutFacts.

(** Unique keys of a literal dictionary. *)
Ltac literal_wf :=
  unfold wf; simpl; repeat constructor; simpl; intuition discriminate.

(** ** The cases of pass 1, seen from outside *)

(** X1. An id of the catalogue that the snapshot lacks gets one [CREATED]
    message with the label of the catalogue and nothing else: no history
    request, no other message.  The next snapshot has the record of the
    catalogue. *)
Theorem new_record_created_once (hist : string -> hresp)
  (old_data new_data next : dict) (tr : list effect)
  (k : string) (e : employee) :
  wf old_data -> wf new_data ->
  dict_get k old_data = None ->
  dict_get k new_data = Some e ->
  reconcile hist old_data new_data = (Ok next, tr) ->
  filter (about k) tr = [Notify (Created k (label e))]
  /\ dict_get k next = Some e.
Proof.
  intros Hwo Hwn Ho He H. split.
  - rewrite (reconcile_about hist _ _ _ _ k e Hwo Hwn He H).
    unfold step. rewrite Ho. simpl. now rewrite String.eqb_refl.
  - rewrite (reconcile_entry hist _ _ _ _ k Hwo Hwn H), He, Ho. reflexivity.
Qed.

Lemma new_record_created_once_witness :
  filter (about "2")
    (snd (reconcile Scenario.hist Scenario.previous Scenario.current))
  = [Notify (Created "2" "Bob")]
  /\ dict_get "2" [("1", Scenario.alice2); ("2", Scenario.bob)]
     = Some Scenario.bob.
Proof.
  apply (new_record_created_once Scenario.hist Scenario.previous
           Scenario.current _ _ "2" Scenario.bob).
  - literal_wf.
  - literal_wf.
  - reflexivity.
  - reflexivity.
  - reflexivity.
Defined.

(** X2. A stored record whose time stamp equals the one of the catalogue
    causes nothing: no request, no message, and the stored record stays
    as it is, even when the catalogue has another label for it. *)
Theorem same_timestamp_is_silent (hist : string -> hresp)
  (old_data new_data next : dict) (tr : list effect)
  (k : string) (o e : employee) :
  wf old_data -> wf new_data ->
  dict_get k old_data = Some o ->
  dict_get k new_data = Some e ->
  updated e = updated o ->
  reconcile hist old_data new_data = (Ok next, tr) ->
  filter (about k) tr = [] /\ dict_get k next = Some o.
Proof.
  intros Hwo Hwn Ho He Hu H. split.
  - rewrite (reconcile_about hist _ _ _ _ k e Hwo Hwn He H).
    unfold step. now rewrite Ho, Hu, opt_eqb_refl.
  - rewrite (reconcile_entry hist _ _ _ _ k Hwo Hwn H), He, Ho. simpl.
    unfold acknowledged. now rewrite Hu, opt_eqb_refl.
Qed.

Lemma same_timestamp_is_silent_witness :
  filter (about "1")
    (snd (reconcile Inputs.down Runs.alice_old Runs.alice_renamed)) = []
  /\ dict_get "1" Runs.alice_old = Some Inputs.alice1.
Proof.
  apply (same_timestamp_is_silent Inputs.down Runs.alice_old
           Runs.alice_renamed _ _ "1" Inputs.alice1
           (mk_employee (IdInt 1) "Alicia" (Some Inputs.ts1))).
  - literal_wf.
  - literal_wf.
  - reflexivity.
  - reflexivity.
  - reflexivity.
  - reflexivity.
Defined.

Lemma step_history_gets (hist : string -> hresp) (d : dict) (k : string)
  (e : employee) :
  count (is_history_get k) (snd (step hist d k e))
  = match dict_get k d with
    | Some o => if opt_eqb (updated e) (updated o) then 0%nat else 1%nat
    | None => 0%nat
    end.
Proof.
  unfold step, count, updated_msg.
  destruct (dict_get k d) as [o|]; [|reflexivity].
  destruct (opt_eqb (updated e) (updated o)); [reflexivity|].
  destruct (hist k) as [err|[|h0 history]];
    [| |destruct (collect_changes _ _) as [[|c cs]|ex];
        [| destruct (last_event (h0 :: history)) as [h|];
           [destruct (actor_name h)|] |]];
    simpl; rewrite ?String.eqb_refl; reflexivity.
Qed.

(** X3. In a pass that ends, the history of an id is requested once when
    the id is stored and in the catalogue with another time stamp, and
    not at all otherwise: never for a new, an unchanged or a deleted
    record. *)
Theorem history_requested_once_if_changed (hist : string -> hresp)
  (old_data new_data next : dict) (tr : list effect) (k : string) :
  wf old_data -> wf new_data ->
  reconcile hist old_data new_data = (Ok next, tr) ->
  count (is_history_get k) tr
  = if changed old_data new_data k then 1%nat else 0%nat.
Proof.
  intros Hwo Hwn H. unfold changed.
  destruct (dict_get k new_data) as [e|] eqn:He.
  - unfold count.
    rewrite <- (filter_narrow (is_history_get k) (about k) tr
                  (is_history_get_about k)).
    rewrite (reconcile_about hist _ _ _ _ k e Hwo Hwn He H).
    rewrite (filter_narrow _ _ _ (is_history_get_about k)).
    fold (count (is_history_get k) (snd (step hist old_data k e))).
    rewrite step_history_gets.
    destruct (dict_get k old_data) as [o|]; [|reflexivity].
    now destruct (opt_eqb (updated e) (updated o)).
  - unfold count.
    rewrite (reconcile_about_absent hist _ _ _ _ k Hwo Hwn He H).
    now destruct (dict_get k old_data).
Qed.

Lemma history_requested_once_if_changed_witness :
  count (is_history_get "1")
    (snd (reconcile Scenario.hist Scenario.previous Scenario.current))
  = 1%nat.
Proof.
  exact (history_requested_once_if_changed Scenario.hist Scenario.previous
           Scenario.current [("1", Scenario.alice2); ("2", Scenario.bob)]
           _ "1" ltac:(literal_wf) ltac:(literal_wf) eq_refl).
Defined.

Lemma step_well_dated (hist : string -> hresp) (d : dict) (k : string)
  (o e : employee) (h0 : hevent) (history : list hevent) :
  dict_get k d = Some o ->
  updated e <> updated o ->
  hist k = HOk (h0 :: history) ->
  Forall dated (h0 :: history) ->
  snd (step hist d k e)
  = match updated_msg k (label e) (h0 :: history)
            (map change_of
               (filter (created_after (last_time (updated o)))
                  (h0 :: history))) with
    | Ok out => HistoryGet k :: out
    | Raised _ => [HistoryGet k]
    end.
Proof.
  intros Ho Hu Hh Hd. unfold step. rewrite Ho.
  destruct (opt_eqb_spec (updated e) (updated o)); [contradiction|].
  rewrite Hh. fold (last_time (updated o)).
  rewrite (collect_changes_dated _ _ Hd).
  now destruct (updated_msg _ _ _ _).
Qed.

Lemma entry_acknowledged (hist : string -> hresp) (k : string)
  (o e : employee) (h0 : hevent) (history : list hevent) :
  updated e <> updated o ->
  hist k = HOk (h0 :: history) ->
  entry_after hist (Some o) k e = set_updated o (updated e).
Proof.
  intros Hu Hh. unfold entry_after, acknowledged, fetched_nonempty.
  rewrite Hh. destruct (opt_eqb_spec (updated e) (updated o));
    [contradiction | reflexivity].
Qed.

(** X4. A stored record with another time stamp in the catalogue, whose
    history is well shaped and has an entry newer than the stored time
    stamp, gets one request and one [UPDATED] message in a pass that ends:
    the label is the one of the catalogue, actor and date are those of the
    last entry, the changes are those of the newer entries.  The stored
    record takes the time stamp of the catalogue. *)
Theorem changed_record_reported (hist : string -> hresp)
  (old_data new_data next : dict) (tr : list effect)
  (k who : string) (o e : employee) (history : list hevent) (h : hevent) :
  wf old_data -> wf new_data ->
  dict_get k old_data = Some o ->
  dict_get k new_data = Some e ->
  updated e <> updated o ->
  hist k = HOk history ->
  Forall dated history ->
  filter (created_after (last_time (updated o))) history <> [] ->
  last_event history = Some h ->
  actor_name h = Ok who ->
  reconcile hist old_data new_data = (Ok next, tr) ->
  filter (about k) tr
  = [HistoryGet k;
     Notify (Updated k (label e) who (created_text h)
               (map change_of
                  (filter (created_after (last_time (updated o))) history)))]
  /\ dict_get k next = Some (set_updated o (updated e)).
Proof.
  intros Hwo Hwn Ho He Hu Hh Hd Hne Hl Ha H.
  destruct history as [|h0 history]; [discriminate|]. split.
  - rewrite (reconcile_about hist _ _ _ _ k e Hwo Hwn He H).
    rewrite (step_well_dated hist _ k o e h0 history Ho Hu Hh Hd).
    unfold updated_msg.
    destruct (map change_of _) as [|c cs] eqn:Em.
    { apply map_eq_nil in Em. contradiction. }
    rewrite Hl, Ha. simpl. now rewrite String.eqb_refl.
  - rewrite (reconcile_entry hist _ _ _ _ k Hwo Hwn H), He, Ho.
    f_equal. eapply entry_acknowledged; eassumption.
Qed.

Lemma changed_record_reported_witness :
  filter (about "1")
    (snd (reconcile Inputs.newest_first Runs.alice_old Runs.alice_new))
  = [HistoryGet "1";
     Notify (Updated "1" "Alice" "Eve" Inputs.ts0
               [mk_change "title" "Eng" "Sr Eng"])]
  /\ dict_get "1" Runs.alice_new = Some Inputs.alice2.
Proof.
  apply (changed_record_reported Inputs.newest_first Runs.alice_old
           Runs.alice_new Runs.alice_new _ "1" "Eve"
           Inputs.alice1 Inputs.alice2
           [Inputs.event Inputs.ts2 (Str "title") (Str "Eng") (Str "Sr Eng")
              "Carol";
            Inputs.event Inputs.ts0 (Str "phone") (Str "555-0100")
              (Str "555-0199") "Eve"]
           (Inputs.event Inputs.ts0 (Str "phone") (Str "555-0100")
              (Str "555-0199") "Eve")).
  - literal_wf.
  - literal_wf.
  - reflexivity.
  - reflexivity.
  - simpl. discriminate.
  - reflexivity.
  - repeat constructor; eexists; reflexivity.
  - simpl. discriminate.
  - reflexivity.
  - reflexivity.
  - reflexivity.
Defined.

(** X5. When every entry of a non-empty, dated history is no newer than
    the stored time stamp, the pass requests the history, sends nothing,
    and still stores the time stamp of the catalogue (line 139). *)
Theorem stale_history_acknowledged (hist : string -> hresp)
  (old_data new_data next : dict) (tr : list effect)
  (k : string) (o e : employee) (history : list hevent) :
  wf old_data -> wf new_data ->
  dict_get k old_data = Some o ->
  dict_get k new_data = Some e ->
  updated e <> updated o ->
  hist k = HOk history ->
  history <> [] ->
  Forall dated history ->
  filter (created_after (last_time (updated o))) history = [] ->
  reconcile hist old_data new_data = (Ok next, tr) ->
  filter (about k) tr = [HistoryGet k]
  /\ dict_get k next = Some (set_updated o (updated e)).
Proof.
  intros Hwo Hwn Ho He Hu Hh Hne Hd Hf H.
  destruct history as [|h0 history]; [contradiction|]. split.
  - rewrite (reconcile_about hist _ _ _ _ k e Hwo Hwn He H).
    rewrite (step_well_dated hist _ k o e h0 history Ho Hu Hh Hd).
    rewrite Hf. simpl. now rewrite String.eqb_refl.
  - rewrite (reconcile_entry hist _ _ _ _ k Hwo Hwn H), He, Ho.
    f_equal. eapply entry_acknowledged; eassumption.
Qed.

Lemma stale_history_acknowledged_witness :
  filter (about "1")
    (snd (reconcile Runs.stale Runs.alice_old Runs.alice_new))
  = [HistoryGet "1"]
  /\ dict_get "1" Runs.alice_new = Some Inputs.alice2.
Proof.
  apply (stale_history_acknowledged Runs.stale Runs.alice_old
           Runs.alice_new Runs.alice_new _ "1"
           Inputs.alice1 Inputs.alice2
           [Inputs.event Inputs.ts0 (Str "phone") (Str "555-0100")
              (Str "555-0199") "Eve"]).
  - literal_wf.
  - literal_wf.
  - reflexivity.
  - reflexivity.
  - simpl. discriminate.
  - reflexivity.
  - discriminate.
  - repeat constructor; eexists; reflexivity.
  - reflexivity.
  - reflexivity.
Defined.

(** X6. When the history of a changed record comes back empty, the pass
    requests it, sends and logs nothing, and leaves the stored record with
    its old time stamp (line 116), unlike the stale history of X5. *)
Theorem empty_history_not_acknowledged (hist : string -> hresp)
  (old_data new_data next : dict) (tr : list effect)
  (k : string) (o e : employee) :
  wf old_data -> wf new_data ->
  dict_get k old_data = Some o ->
  dict_get k new_data = Some e ->
  updated e <> updated o ->
  hist k = HOk [] ->
  reconcile hist old_data new_data = (Ok next, tr) ->
  filter (about k) tr = [HistoryGet k]
  /\ dict_get k next = Some o.
Proof.
  intros Hwo Hwn Ho He Hu Hh H. split.
  - rewrite (reconcile_about hist _ _ _ _ k e Hwo Hwn He H).
    unfold step. rewrite Ho, Hh.
    destruct (opt_eqb_spec (updated e) (updated o)); [contradiction|].
    simpl. now rewrite String.eqb_refl.
  - rewrite (reconcile_entry hist _ _ _ _ k Hwo Hwn H), He, Ho. simpl.
    unfold acknowledged, fetched_nonempty. rewrite Hh.
    now rewrite andb_false_r.
Qed.

Lemma empty_history_not_acknowledged_witness :
  filter (about "1")
    (snd (reconcile Runs.silent Runs.alice_old Runs.alice_new))
  = [HistoryGet "1"]
  /\ dict_get "1" Runs.alice_old = Some Inputs.alice1.
Proof.
  apply (empty_history_not_acknowledged Runs.silent Runs.alice_old
           Runs.alice_new _ _ "1" Inputs.alice1 Inputs.alice2).
  - literal_wf.
  - literal_wf.
  - reflexivity.
  - reflexivity.
  - simpl. discriminate.
  - reflexivity.
  - reflexivity.
Defined.

(** X7. A failed history request is logged with the label of the
    catalogue and the text of the exception, and the history is requested
    once. *)
Theorem failed_request_logged (hist : string -> hresp)
  (old_data new_data next : dict) (tr : list effect)
  (k err : string) (o e : employee) :
  wf old_data -> wf new_data ->
  dict_get k old_data = Some o ->
  dict_get k new_data = Some e ->
  updated e <> updated o ->
  hist k = HErr err ->
  reconcile hist old_data new_data = (Ok next, tr) ->
  In (LogHistoryError (label e) err) tr
  /\ filter (about k) tr = [HistoryGet k].
Proof.
  intros Hwo Hwn Ho He Hu Hh H.
  assert (snd (step hist old_data k e)
          = [HistoryGet k; LogHistoryError (label e) err]) as Hout.
  { unfold step. rewrite Ho, Hh.
    now destruct (opt_eqb_spec (updated e) (updated o)). }
  split.
  - destruct (reconcile_ok_inv hist _ _ _ _ H) as (w & tr1 & tr2 & E1 & _ & ->).
    destruct (pass1_effect_intro hist new_data old_data w tr1 k e Hwn E1)
      as (dk & dk' & outk & Hs & Hg & Hi).
    { now apply dict_get_some_in. }
    apply in_or_app. left. apply Hi.
    pose proof (step_out_ext hist dk old_data k e Hg) as Hx.
    rewrite Hs, Hout in Hx. simpl in Hx. subst outk. simpl. tauto.
  - rewrite (reconcile_about hist _ _ _ _ k e Hwo Hwn He H), Hout.
    simpl. now rewrite String.eqb_refl.
Qed.

Lemma failed_request_logged_witness :
  In (LogHistoryError "Alice" "503 Server Error")
    (snd (reconcile Inputs.down Runs.alice_old Runs.alice_new))
  /\ filter (about "1")
       (snd (reconcile Inputs.down Runs.alice_old Runs.alice_new))
     = [HistoryGet "1"].
Proof.
  apply (failed_request_logged Inputs.down Runs.alice_old Runs.alice_new
           Runs.alice_old _ "1" "503 Server Error"
           Inputs.alice1 Inputs.alice2).
  - literal_wf.
  - literal_wf.
  - reflexivity.
  - reflexivity.
  - simpl. discriminate.
  - reflexivity.
  - reflexivity.
Defined.

(** ** Histories that end the run *)




(** ** Pass 2 in closed form *)

Section Deletions.

Variable new_data : dict.

Lemma dict_get_app_fresh (pre d : dict) (k : string) :
  ~ In k (keys pre) -> dict_get k (pre ++ d)%list = dict_get k d.
Proof.
  induction pre as [|[k' v'] pre IH]; simpl; intros H; [reflexivity|].
  destruct (String.eqb_spec k k') as [->|Hne]; [tauto|].
  apply IH. tauto.
Qed.

Lemma dict_pop_app_fresh (pre d : dict) (k : string) :
  ~ In k (keys pre) ->
  dict_pop k (pre ++ d)%list = (pre ++ dict_pop k d)%list.
Proof.
  induction pre as [|[k' v'] pre IH]; simpl; intros H; [reflexivity|].
  destruct (String.eqb_spec k k') as [->|Hne]; [tauto|].
  f_equal. apply IH. tauto.
Qed.

(** The second loop over the keys of [d], with the records [pre] already
    passed and kept. *)
Lemma pass2_closed (d : dict) :
  forall pre : dict,
    wf (pre ++ d)%list ->
    pass2 (keys d) new_data (pre ++ d)%list
    = (Ok (pre ++ filter (in_catalogue new_data) d)%list,
       map deleted_msg (filter (not_in_catalogue new_data) d)).
Proof.
  induction d as [|[k v] d IH]; intros pre Hwf; simpl.
  - reflexivity.
  - unfold in_catalogue, not_in_catalogue. simpl.
    assert (~ In k (keys pre)) as Hfresh.
    { unfold wf, keys in Hwf. rewrite map_app in Hwf. simpl in Hwf.
      apply NoDup_remove_2 in Hwf. intros I. apply Hwf.
      apply in_or_app. now left. }
    destruct (dict_mem k new_data) eqn:Em; simpl.
    + specialize (IH (pre ++ [(k, v)])%list).
      rewrite <- !app_assoc in IH. simpl in IH. now apply IH.
    + rewrite (dict_get_app_fresh pre _ k Hfresh). simpl.
      rewrite String.eqb_refl.
      rewrite (dict_pop_app_fresh pre _ k Hfresh). simpl.
      rewrite String.eqb_refl.
      rewrite IH; [reflexivity|].
      unfold wf, keys in *. rewrite map_app in *. simpl in Hwf.
      now apply NoDup_remove_1 in Hwf.
Qed.

Lemma filter_dict_set (p : string * employee -> bool) (k : string)
  (v : employee) (d : dict) :
  (forall x, p (k, x) = false) ->
  filter p (dict_set k v d) = filter p d.
Proof.
  intros Hp. induction d as [|[k' v'] d IH]; simpl.
  - now rewrite Hp.
  - destruct (String.eqb_spec k k') as [->|Hne]; simpl.
    + now rewrite !Hp.
    + now rewrite IH.
Qed.

(** Pass 1 does not touch the records that the catalogue lacks. *)
Lemma pass1_keeps_absent (hist : string -> hresp)
  (items : list (string * employee)) :
  forall (d w : dict) (tr : list effect),
    (forall k e, In (k, e) items -> dict_mem k new_data = true) ->
    pass1 hist items d = (Ok w, tr) ->
    filter (not_in_catalogue new_data) w
    = filter (not_in_catalogue new_data) d.
Proof.
  induction items as [|[k e] items IH]; simpl; intros d w tr Hin H.
  - now injection H as <- _.
  - destruct (step hist d k e) as [[d1|ex] out] eqn:Es; [|discriminate].
    destruct (pass1 hist items d1) as [r1 tr1] eqn:Ep.
    injection H as -> _.
    rewrite (IH d1 w tr1) by (intros; eauto).
    apply step_dict in Es. subst d1.
    assert (forall x, not_in_catalogue new_data (k, x) = false) as Hp.
    { intros x. unfold not_in_catalogue. simpl.
      now rewrite (Hin k e (or_introl eq_refl)). }
    destruct (dict_get k d) as [old|]; [|now apply filter_dict_set].
    destruct (acknowledged hist k old e);
      [now apply filter_dict_set | reflexivity].
Qed.

End Deletions.

(** Both passes in one equation. *)
Lemma reconcile_closed (hist : string -> hresp) (old_data new_data w : dict)
  (tr1 : list effect) :
  wf old_data ->
  pass1 hist new_data old_data = (Ok w, tr1) ->
  reconcile hist old_data new_data
  = (Ok (filter (in_catalogue new_data) w),
     (tr1 ++ map deleted_msg
               (filter (not_in_catalogue new_data) old_data))%list).
Proof.
  intros Hwo E1. unfold reconcile. rewrite E1.
  assert (wf w) as Hw by (eapply pass1_wf; eassumption).
  pose proof (pass2_closed new_data w [] Hw) as E2. simpl in E2.
  rewrite E2.
  rewrite (pass1_keeps_absent new_data hist new_data old_data w tr1);
    [reflexivity | | exact E1].
  intros k e I. eapply in_dict_mem; eassumption.
Qed.

(** X9. In a pass that ends, the [DELETED] messages are the last effects
    of the run: one for each stored record whose id the catalogue lacks,
    in the order and with the labels of the old snapshot.  What comes
    before them holds no [DELETED] message. *)
Theorem deletions_close_the_run (hist : string -> hresp)
  (old_data new_data next : dict) (tr : list effect) :
  wf old_data ->
  reconcile hist old_data new_data = (Ok next, tr) ->
  exists tr1,
    tr = (tr1 ++ map deleted_msg
                   (filter (not_in_catalogue new_data) old_data))%list
    /\ (forall k, count (is_deleted_for k) tr1 = 0%nat).
Proof.
  intros Hwo H.
  destruct (reconcile_ok_inv hist _ _ _ _ H) as (w & tr1 & tr2 & E1 & _ & _).
  rewrite (reconcile_closed hist _ _ w tr1 Hwo E1) in H.
  injection H as _ <-. exists tr1. split; [reflexivity|].
  intros k. eapply pass1_no_deleted; eassumption.
Qed.

Lemma deletions_close_the_run_witness :
  exists tr1,
    snd (reconcile Scenario.hist
           [("3", Inputs.carol1); ("1", Inputs.alice1); ("4", Inputs.zoe)]
           Scenario.current)
    = (tr1 ++ map deleted_msg
                (filter (not_in_catalogue Scenario.current)
                   [("3", Inputs.carol1); ("1", Inputs.alice1);
                    ("4", Inputs.zoe)]))%list
    /\ (forall k, count (is_deleted_for k) tr1 = 0%nat).
Proof.
  apply (deletions_close_the_run Scenario.hist
           [("3", Inputs.carol1); ("1", Inputs.alice1); ("4", Inputs.zoe)]
           Scenario.current
           [("1", Scenario.alice2); ("2", Scenario.bob)]).
  - literal_wf.
  - reflexivity.
Defined.

(** ** The order of the saved records *)

Lemma filter_all {A : Type} (p : A -> bool) (l : list A) :
  (forall x, In x l -> p x = true) -> filter p l = l.
Proof.
  induction l as [|x l IH]; simpl; intros H; [reflexivity|].
  rewrite (H x) by now left. f_equal. apply IH. intros y I. apply H. now right.
Qed.

Lemma key_dict_mem (k : string) (d : dict) :
  In k (keys d) -> dict_mem k d = true.
Proof.
  intros I. unfold dict_mem. destruct (dict_get k d) eqn:E; [reflexivity|].
  apply dict_get_none_iff in E. contradiction.
Qed.

Lemma keys_filter_in_catalogue (new_data d : dict) :
  keys (filter (in_catalogue new_data) d)
  = filter (fun k => dict_mem k new_data) (keys d).
Proof.
  induction d as [|[k v] d IH]; simpl; [reflexivity|].
  unfold in_catalogue at 1. simpl.
  destruct (dict_mem k new_data); simpl; now rewrite IH.
Qed.

Lemma dict_mem_step_other (hist : string -> hresp) (d d' : dict)
  (k k0 : string) (e : employee) (out : list effect) :
  step hist d k e = (Ok d', out) -> k0 <> k ->
  dict_mem k0 d' = dict_mem k0 d.
Proof.
  intros H Hne. unfold dict_mem.
  now rewrite (step_other hist d d' k k0 e out H Hne).
Qed.

Lemma step_keys (hist : string -> hresp) (d d' : dict) (k : string)
  (e : employee) (out : list effect) :
  step hist d k e = (Ok d', out) ->
  keys d' = (keys d ++ (if dict_mem k d then [] else [k]))%list.
Proof.
  intros H. apply step_dict in H. subst d'. unfold dict_mem.
  destruct (dict_get k d) as [old|] eqn:E.
  - rewrite app_nil_r.
    destruct (acknowledged hist k old e); [|reflexivity].
    eapply keys_set_present; eassumption.
  - rewrite (dict_set_absent k e d E). unfold keys. now rewrite map_app.
Qed.

(** Pass 1 appends the new ids, in the order of the catalogue. *)
Lemma pass1_keys (hist : string -> hresp) (items : list (string * employee)) :
  forall (d w : dict) (tr : list effect),
    NoDup (map fst items) ->
    pass1 hist items d = (Ok w, tr) ->
    keys w
    = (keys d ++ filter (fun k => negb (dict_mem k d)) (map fst items))%list.
Proof.
  induction items as [|[k e] items IH]; simpl; intros d w tr Hnd H.
  - injection H as <- _. now rewrite app_nil_r.
  - inversion Hnd as [|? ? Hni Hnd']; subst.
    destruct (step hist d k e) as [[d1|ex] out] eqn:Es; [|discriminate].
    destruct (pass1 hist items d1) as [r1 tr1] eqn:Ep.
    injection H as -> _.
    rewrite (IH d1 w tr1 Hnd' Ep), (step_keys hist d d1 k e out Es).
    assert (filter (fun k0 => negb (dict_mem k0 d1)) (map fst items)
            = filter (fun k0 => negb (dict_mem k0 d)) (map fst items)) as ->.
    { apply filter_ext_in. intros k0 I. f_equal.
      eapply dict_mem_step_other; [eassumption|]. intros ->. contradiction. }
    destruct (dict_mem k d); simpl.
    + now rewrite app_nil_r.
    + now rewrite <- app_assoc.
Qed.

(** X10. The snapshot that a pass returns, and so the file that [main]
    writes, lists first the stored records that the catalogue still has,
    in their old order, then the new ones in the order of the
    catalogue. *)
Theorem saved_order (hist : string -> hresp)
  (old_data new_data next : dict) (tr : list effect) :
  wf old_data -> wf new_data ->
  reconcile hist old_data new_data = (Ok next, tr) ->
  keys next
  = (filter (fun k => dict_mem k new_data) (keys old_data)
     ++ filter (fun k => negb (dict_mem k old_data)) (keys new_data))%list.
Proof.
  intros Hwo Hwn H.
  destruct (reconcile_ok_inv hist _ _ _ _ H) as (w & tr1 & tr2 & E1 & _ & _).
  rewrite (reconcile_closed hist _ _ w tr1 Hwo E1) in H.
  injection H as <- _.
  rewrite keys_filter_in_catalogue, (pass1_keys hist _ _ _ _ Hwn E1).
  rewrite filter_app. f_equal.
  apply filter_all. intros k I. apply filter_In in I.
  now apply key_dict_mem.
Qed.

Lemma saved_order_witness :
  keys [("1", Scenario.alice2); ("2", Scenario.bob)]
  = (filter (fun k => dict_mem k Scenario.current)
       (keys [("3", Inputs.carol1); ("1", Inputs.alice1)])
     ++ filter (fun k => negb (dict_mem k
                                 [("3", Inputs.carol1); ("1", Inputs.alice1)]))
          (keys Scenario.current))%list.
Proof.
  apply (saved_order Scenario.hist
           [("3", Inputs.carol1); ("1", Inputs.alice1)] Scenario.current
           [("1", Scenario.alice2); ("2", Scenario.bob)]
           (snd (reconcile Scenario.hist
                   [("3", Inputs.carol1); ("1", Inputs.alice1)]
                   Scenario.current))).
  - literal_wf.
  - literal_wf.
  - reflexivity.
Defined.

(** ** Dictionaries built from lists (lines 63 and 73) *)

Lemma find_append {A : Type} (p : A -> bool) (l1 l2 : list A) :
  find p (l1 ++ l2)
  = match find p l1 with
    | Some x => Some x
    | None => find p l2
    end.
Proof.
  induction l1 as [|x l1 IH]; simpl; [reflexivity|].
  now destruct (p x).
Qed.

Lemma keyed_set (k : string) (v : employee) (d : dict) :
  keyed d -> k = str (id v) -> keyed (dict_set k v d).
Proof.
  unfold keyed. intros Hk ->. induction d as [|[k' v'] d IH]; simpl.
  - now repeat constructor.
  - inversion Hk as [|? ? Hkv Hk']; subst.
    destruct (str (id v) =? k')%string; constructor; auto.
Qed.

Lemma of_list_from_wf (l : list employee) :
  forall d, wf d -> wf (of_list_from d l).
Proof.
  unfold of_list_from. induction l as [|e l IH]; simpl; intros d H;
    [exact H|].
  apply IH. now apply wf_set.
Qed.

Lemma of_list_from_keyed (l : list employee) :
  forall d, keyed d -> keyed (of_list_from d l).
Proof.
  unfold of_list_from. induction l as [|e l IH]; simpl; intros d H;
    [exact H|].
  apply IH. now apply keyed_set.
Qed.

Lemma of_list_wf (l : list employee) : wf (of_list l).
Proof. apply of_list_from_wf. constructor. Qed.

Lemma of_list_keyed (l : list employee) : keyed (of_list l).
Proof. apply of_list_from_keyed. constructor. Qed.

Lemma of_list_from_get (l : list employee) :
  forall (d : dict) (k : string),
    dict_get k (of_list_from d l)
    = match find (fun e => (str (id e) =? k)%string) (rev l) with
      | Some e => Some e
      | None => dict_get k d
      end.
Proof.
  unfold of_list_from. induction l as [|e l IH]; simpl; intros d k;
    [reflexivity|].
  rewrite IH, find_append. simpl.
  destruct (find _ (rev l)); [reflexivity|].
  destruct (String.eqb_spec (str (id e)) k) as [<-|Hne].
  - apply dict_get_set_same.
  - apply dict_get_set_other. now apply not_eq_sym.
Qed.

(** X11. In the dictionary that lines 63 and 73 build from a list of
    records, an id that occurs several times keeps its last record; every
    key is the string form of the id of its record. *)
Theorem of_list_last_wins (l : list employee) (k : string) :
  dict_get k (of_list l)
  = find (fun e => (str (id e) =? k)%string) (rev l)
  /\ keyed (of_list l).
Proof.
  split; [|apply of_list_keyed].
  unfold of_list. rewrite of_list_from_get.
  now destruct (find _ (rev l)).
Qed.

(** The records of a well-keyed dictionary give the dictionary back. *)
Lemma of_list_values (d : dict) : wf d -> keyed d -> of_list (values d) = d.
Proof.
  intros Hwf Hk. unfold of_list.
  enough (forall acc : dict,
            NoDup (keys acc ++ keys d) ->
            of_list_from acc (values d) = (acc ++ d)%list) as G.
  { now rewrite (G [] Hwf). }
  clear Hwf. induction d as [|[k v] d IH]; intros acc Hnd; simpl.
  - now rewrite app_nil_r.
  - inversion Hk as [|? ? Hkv Hk']; subst. simpl in Hkv. subst k.
    unfold of_list_from in *. simpl in Hnd.
    rewrite dict_set_absent.
    + rewrite IH; [now rewrite <- app_assoc | exact Hk' |].
      unfold keys in *. rewrite map_app. simpl.
      rewrite <- app_assoc. exact Hnd.
    + apply dict_get_none_iff. intros I.
      apply NoDup_remove_2 in Hnd. apply Hnd. apply in_or_app. now left.
Qed.

(** ** The invariant of the snapshot *)

Section Invariant.

Variable hist : string -> hresp.

Lemma step_keyed (d d' : dict) (k : string) (e : employee)
  (out : list effect) :
  keyed d -> k = str (id e) ->
  step hist d k e = (Ok d', out) -> keyed d'.
Proof.
  intros Hk He H. apply step_dict in H. subst d'.
  destruct (dict_get k d) as [old|] eqn:Eg; [|now apply keyed_set].
  destruct (acknowledged hist k old e); [|exact Hk].
  apply keyed_set; [exact Hk|]. simpl.
  apply dict_get_some_in in Eg. unfold keyed in Hk.
  rewrite Forall_forall in Hk. exact (Hk _ Eg).
Qed.

Lemma pass1_keyed (items : list (string * employee)) :
  forall (d w : dict) (tr : list effect),
    keyed d -> keyed items ->
    pass1 hist items d = (Ok w, tr) -> keyed w.
Proof.
  induction items as [|[k e] items IH]; simpl; intros d w tr Hd Hi H.
  - now injection H as <- _.
  - inversion Hi as [|? ? Hke Hi']; subst. simpl in Hke.
    destruct (step hist d k e) as [[d1|ex] out] eqn:Es; [|discriminate].
    destruct (pass1 hist items d1) as [r1 tr1] eqn:Ep.
    injection H as -> _.
    eapply IH; [|exact Hi'|exact Ep].
    eapply step_keyed; [exact Hd| |exact Es]; auto.
Qed.

(** A pass that ends keeps the keys unique and equal to the string forms
    of the ids. *)
Lemma reconcile_invariant (old_data new_data next : dict) (tr : list effect) :
  wf old_data -> keyed old_data -> keyed new_data ->
  reconcile hist old_data new_data = (Ok next, tr) ->
  wf next /\ keyed next.
Proof.
  intros Hwo Hko Hkn H.
  destruct (reconcile_ok_inv hist _ _ _ _ H) as (w & tr1 & tr2 & E1 & _ & _).
  rewrite (reconcile_closed hist _ _ w tr1 Hwo E1) in H.
  injection H as <- _. split.
  - unfold wf. rewrite keys_filter_in_catalogue. apply NoDup_filter.
    eapply pass1_wf; eassumption.
  - pose proof (pass1_keyed new_data old_data w tr1 Hko Hkn E1) as Hw.
    unfold keyed in *. rewrite Forall_forall in *.
    intros kv I. apply filter_In in I. now apply Hw.
Qed.

End Invariant.

Lemma fetch_employees_inv (get_page : nat -> response) (fuel : nat)
  (data : dict) (tr : list effect) :
  fetch_employees get_page fuel = Some (data, tr) ->
  exists employees, data = of_list employees.
Proof.
  unfold fetch_employees.
  destruct (fetch_pages get_page fuel 1 []) as [[employees tr']|];
    [|discriminate].
  intros [= <- _]. now exists employees.
Qed.

(** X12. When a run of [main] on an existing file ends without an
    exception, the file it writes is the list of the records of the
    snapshot that the two passes returned, and [load_employees] reads that
    very snapshot back from it, in the same order, whatever the old file
    and the catalogue held (duplicates included). *)
Theorem saved_file_reloads (get_page : nat -> response)
  (hist : string -> hresp) (fuel : nat) (l : list employee) (r : run) :
  main get_page hist fuel (Some l) = Some r ->
  uncaught r = None ->
  exists new_data tr1 next tr2,
    fetch_employees get_page fuel = Some (new_data, tr1)
    /\ reconcile hist (of_list l) new_data = (Ok next, tr2)
    /\ file_after r = Some (save_employees next)
    /\ forall get_page' fuel',
         load_employees get_page' fuel' (file_after r)
         = Some (next, file_after r, []).
Proof.
  unfold main, load_employees at 1.
  destruct (fetch_employees get_page fuel) as [[new_data tr1]|] eqn:Ef;
    [|discriminate].
  destruct (reconcile hist (of_list l) new_data) as [[next|ex] tr2] eqn:Er;
    intros [= <-]; simpl; [intros _ | discriminate].
  exists new_data, tr1, next, tr2.
  split; [reflexivity|]. split; [exact Er|]. split; [reflexivity|].
  intros get_page' fuel'. unfold load_employees, save_employees.
  destruct (fetch_employees_inv _ _ _ _ Ef) as [employees ->].
  destruct (reconcile_invariant hist _ _ _ _ (of_list_wf l) (of_list_keyed l)
              (of_list_keyed employees) Er) as [Hw Hk].
  now rewrite (of_list_values next Hw Hk).
Qed.

Lemma saved_file_reloads_witness :
  exists new_data tr1 next tr2,
    fetch_employees Inputs.one_page 1 = Some (new_data, tr1)
    /\ reconcile Inputs.down (of_list [Inputs.alice1]) new_data
       = (Ok next, tr2)
    /\ Some [Inputs.alice1; Inputs.bob3] = Some (save_employees next)
    /\ forall get_page' fuel',
         load_employees get_page' fuel' (Some [Inputs.alice1; Inputs.bob3])
         = Some (next, Some [Inputs.alice1; Inputs.bob3], []).
Proof.
  apply (saved_file_reloads Inputs.one_page Inputs.down 1 [Inputs.alice1]
           {| file_after := Some [Inputs.alice1; Inputs.bob3];
              uncaught := None;
              trace := [LogStarted; HistoryGet "1";
                        LogHistoryError "Alice" "503 Server Error";
                        Notify (Created "2" "Bob"); LogFinished] |}).
  - reflexivity.
  - reflexivity.
Defined.

(** ** Runs that report nothing *)

(** Equal time stamps and no missing id: nothing to do. *)
Lemma reconcile_silent (hist : string -> hresp) (old_data new_data : dict) :
  (forall k e, In (k, e) new_data ->
     exists o, dict_get k old_data = Some o /\ updated e = updated o) ->
  (forall k, In k (keys old_data) -> dict_mem k new_data = true) ->
  reconcile hist old_data new_data = (Ok old_data, []).
Proof.
  intros Hsame Hall. unfold reconcile.
  rewrite (pass1_unchanged hist new_data old_data Hsame).
  now rewrite (pass2_noop new_data (keys old_data) old_data Hall).
Qed.

(** X13. When every record of the catalogue is stored with the same time
    stamp and every stored id is in the catalogue, the pass sends nothing,
    requests nothing and returns the snapshot as it was, whatever the
    labels in the catalogue are: a change of label that leaves the time
    stamp alone is never seen. *)
Theorem equal_timestamps_report_nothing (hist : string -> hresp)
  (old_data new_data : dict) :
  (forall k e, In (k, e) new_data ->
     exists o, dict_get k old_data = Some o /\ updated e = updated o) ->
  (forall k, In k (keys old_data) -> dict_mem k new_data = true) ->
  reconcile hist old_data new_data = (Ok old_data, []).
Proof. apply reconcile_silent. Qed.

Lemma equal_timestamps_report_nothing_witness :
  reconcile Inputs.down Runs.alice_old Runs.alice_renamed
  = (Ok Runs.alice_old, []).
Proof.
  apply (equal_timestamps_report_nothing Inputs.down Runs.alice_old
           Runs.alice_renamed).
  - intros k e [[= <- <-]|[]]. now exists Inputs.alice1.
  - intros k [<-|[]]. reflexivity.
Defined.

(** X14. The first run, without a snapshot file: [load_employees] fetches
    the catalogue and saves it, [main] fetches it again, and when both
    requests see the same catalogue the run reports nothing and leaves the
    catalogue in the file. *)
Theorem first_run_is_a_baseline (get_page : nat -> response)
  (hist : string -> hresp) (fuel : nat) (data : dict) (tr : list effect) :
  fetch_employees get_page fuel = Some (data, tr) ->
  main get_page hist fuel None
  = Some {| file_after := Some (save_employees data);
            uncaught := None;
            trace := (LogStarted :: LogInitial :: tr ++ tr
                        ++ [LogFinished])%list |}.
Proof.
  intros Hf. unfold main, load_employees. rewrite Hf.
  destruct (fetch_employees_inv _ _ _ _ Hf) as [employees ->].
  rewrite reconcile_silent.
  - reflexivity.
  - intros k e I. exists e. split; [|reflexivity].
    apply dict_get_in; [apply of_list_wf | exact I].
  - intros k. apply key_dict_mem.
Qed.

Lemma first_run_is_a_baseline_witness :
  main Inputs.one_page Inputs.down 1 None
  = Some {| file_after := Some [Inputs.alice2; Inputs.bob3];
            uncaught := None;
            trace := [LogStarted; LogInitial; LogFinished] |}.
Proof.
  apply (first_run_is_a_baseline Inputs.one_page Inputs.down 1
           [("1", Inputs.alice2); ("2", Inputs.bob3)] []).
  reflexivity.
Defined.

(** X15. After a pass that ends and in which every changed record had a
    non-empty history, a second pass on the returned snapshot and the same
    catalogue finds nothing to do: it sends nothing, requests no history
    and returns the snapshot unchanged, whatever the history endpoint
    would answer. *)
Theorem second_pass_is_quiet (hist hist' : string -> hresp)
  (old_data new_data next : dict) (tr : list effect) :
  wf old_data -> wf new_data ->
  (forall k, changed old_data new_data k = true ->
             fetched_nonempty hist k = true) ->
  reconcile hist old_data new_data = (Ok next, tr) ->
  reconcile hist' next new_data = (Ok next, []).
Proof.
  intros Hwo Hwn Hack H. apply reconcile_silent.
  - intros k e I.
    pose proof (dict_get_in k e new_data Hwn I) as He.
    pose proof (reconcile_entry hist _ _ _ _ k Hwo Hwn H) as G.
    rewrite He in G. rewrite G. eexists. split; [reflexivity|].
    unfold entry_after, acknowledged.
    destruct (dict_get k old_data) as [o|] eqn:Eo; [|reflexivity].
    destruct (opt_eqb_spec (updated e) (updated o)) as [E|N]; simpl;
      [exact E|].
    rewrite Hack; [reflexivity|].
    unfold changed. rewrite Eo, He.
    now destruct (opt_eqb_spec (updated e) (updated o)).
  - intros k I. unfold dict_mem.
    destruct (dict_get k new_data) eqn:En; [reflexivity|].
    pose proof (reconcile_entry hist _ _ _ _ k Hwo Hwn H) as G.
    rewrite En in G. apply dict_get_none_iff in G. contradiction.
Qed.

Lemma second_pass_is_quiet_witness :
  reconcile Inputs.down [("1", Scenario.alice2); ("2", Scenario.bob)]
    Scenario.current
  = (Ok [("1", Scenario.alice2); ("2", Scenario.bob)], []).
Proof.
  apply (second_pass_is_quiet Scenario.hist Inputs.down Scenario.previous
           Scenario.current [("1", Scenario.alice2); ("2", Scenario.bob)]
           (snd (reconcile Scenario.hist Scenario.previous Scenario.current))).
  - literal_wf.
  - literal_wf.
  - intros k. unfold changed. simpl.
    destruct (String.eqb_spec k "1") as [->|_]; [reflexivity|].
    destruct (k =? "2")%string; discriminate.
  - reflexivity.
Defined.

(** ** The paging loop of [fetch_employees] *)

Section Paging.

Variable get_page : nat -> response.

Lemma entries_from_S (page n : nat) :
  entries_from get_page page (S n)
  = (objectEntries (get_page page) ++ entries_from get_page (S page) n)%list.
Proof. reflexivity. Qed.

Lemma entries_from_last (page n : nat) :
  entries_from get_page page (S n)
  = (entries_from get_page page n
     ++ objectEntries (get_page (page + n)))%list.
Proof.
  unfold entries_from. rewrite seq_S, map_app, concat_app. simpl.
  now rewrite app_nil_r.
Qed.

(** Over [n] full pages the loop only accumulates. *)
Lemma fetch_pages_full (n : nat) :
  forall (fuel page : nat) (acc : list employee),
    (forall p, (page <= p < page + n)%nat -> full_page get_page p) ->
    fetch_pages get_page (n + fuel) page acc
    = fetch_pages get_page fuel (page + n)
        (acc ++ entries_from get_page page n)%list.
Proof.
  induction n as [|n IH]; intros fuel page acc Hfull.
  - simpl. now rewrite Nat.add_0_r, app_nil_r.
  - destruct (Hfull page) as [Hs Hl]; [lia|].
    change (S n + fuel)%nat with (S (n + fuel)).
    cbn [fetch_pages]. rewrite Hs. simpl negb. cbv iota.
    destruct (objectEntries (get_page page)) as [|e0 rest] eqn:Ed.
    { simpl in Hl. lia. }
    destruct (Nat.ltb_spec (length (e0 :: rest)) 1000) as [Hlt|_]; [lia|].
    rewrite IH by (intros p Hp; apply Hfull; lia).
    rewrite entries_from_S, Ed, app_assoc.
    now replace (S page + n)%nat with (page + S n)%nat by lia.
Qed.

Lemma fetch_pages_short (fuel page : nat) (acc : list employee) :
  status_code (get_page page) = 200%Z ->
  (length (objectEntries (get_page page)) < 1000)%nat ->
  fetch_pages get_page (S fuel) page acc
  = Some ((acc ++ objectEntries (get_page page))%list, []).
Proof.
  intros Hs Hl. cbn [fetch_pages]. rewrite Hs. simpl negb. cbv iota.
  destruct (objectEntries (get_page page)) as [|e0 rest] eqn:Ed.
  - now rewrite app_nil_r.
  - now destruct (Nat.ltb_spec (length (e0 :: rest)) 1000) as [_|Hge]; [|lia].
Qed.

End Paging.

(** X16. When pages 1 to [n] come back with status 200 and at least 1000
    entries each, and page [n + 1] comes back with status 200 and fewer
    than 1000 entries (none at all included), [fetch_employees] reads
    exactly these [n + 1] pages, logs nothing, and returns the dictionary
    of all their entries in order. *)
Theorem fetch_reads_all_pages (get_page : nat -> response) (n fuel : nat) :
  (forall p, (1 <= p <= n)%nat -> full_page get_page p) ->
  status_code (get_page (S n)) = 200%Z ->
  (length (objectEntries (get_page (S n))) < 1000)%nat ->
  (n < fuel)%nat ->
  fetch_employees get_page fuel
  = Some (of_list (entries_from get_page 1 (S n)), []).
Proof.
  intros Hfull Hs Hl Hf. unfold fetch_employees.
  replace fuel with (n + S (fuel - S n))%nat by lia.
  rewrite fetch_pages_full by (intros p Hp; apply Hfull; lia).
  rewrite fetch_pages_short by assumption.
  now rewrite entries_from_last.
Qed.

Lemma four_pages_full :
  forall p, (1 <= p <= 3)%nat -> full_page Runs.four_pages p.
Proof.
  intros p Hp. destruct p as [|[|[|[|p]]]]; try lia;
    (split; [reflexivity | apply Nat.leb_le; reflexivity]).
Defined.

Lemma fetch_reads_all_pages_witness :
  fetch_employees Runs.four_pages 4
  = Some (of_list (entries_from Runs.four_pages 1 4), []).
Proof.
  apply (fetch_reads_all_pages Runs.four_pages 3 4).
  - exact four_pages_full.
  - reflexivity.
  - apply Nat.ltb_lt. reflexivity.
  - apply Nat.ltb_lt. reflexivity.
Defined.

(** X17. When pages 1 to [n] are full and page [n + 1] comes back with
    another status than 200, [fetch_employees] logs that status once and
    returns the dictionary of the [n] pages read so far; it raises
    nothing. *)
Theorem fetch_stops_at_refused_page (get_page : nat -> response)
  (n fuel : nat) :
  (forall p, (1 <= p <= n)%nat -> full_page get_page p) ->
  status_code (get_page (S n)) <> 200%Z ->
  (n < fuel)%nat ->
  fetch_employees get_page fuel
  = Some (of_list (entries_from get_page 1 n),
          [LogFetchError (status_code (get_page (S n)))]).
Proof.
  intros Hfull Hs Hf. unfold fetch_employees.
  replace fuel with (n + S (fuel - S n))%nat by lia.
  rewrite fetch_pages_full by (intros p Hp; apply Hfull; lia).
  now rewrite fetch_pages_refused.
Qed.

Lemma fourth_refused_full :
  forall p, (1 <= p <= 3)%nat -> full_page Runs.fourth_refused p.
Proof.
  intros p Hp. destruct p as [|[|[|[|p]]]]; try lia;
    (split; [reflexivity | apply Nat.leb_le; reflexivity]).
Defined.

Lemma fetch_stops_at_refused_page_witness :
  fetch_employees Runs.fourth_refused 4
  = Some (of_list (entries_from Runs.fourth_refused 1 3),
          [LogFetchError 502]).
Proof.
  apply (fetch_stops_at_refused_page Runs.fourth_refused 3 4).
  - exact fourth_refused_full.
  - discriminate.
  - apply Nat.ltb_lt. reflexivity.
Defined.

(** X18. The loop has no bound on the number of pages: as long as every
    page comes back full, it asks for the next one.  On a catalogue whose
    every page is full no number of requests ends it. *)
Theorem fetch_has_no_page_limit (get_page : nat -> response) (fuel : nat) :
  (forall p, (1 <= p)%nat -> full_page get_page p) ->
  fetch_employees get_page fuel = None.
Proof.
  intros Hfull. unfold fetch_employees.
  replace fuel with (fuel + 0)%nat by lia.
  rewrite fetch_pages_full by (intros p Hp; apply Hfull; lia).
  reflexivity.
Qed.

Lemma fetch_has_no_page_limit_witness :
  fetch_employees Runs.endless 50 = None.
Proof.
  apply (fetch_has_no_page_limit Runs.endless 50).
  intros p _. split; [reflexivity | apply Nat.leb_le; reflexivity].
Defined.

(** ** The sentinel of line 118 *)

(** X19. For a stored record without a time stamp the filter of line 121
    compares with ["0"]: a history entry passes exactly when its
    ["created"] is a string that starts with a character after ["0"], or
    with ["0"] followed by at least one more character.  Dates that start
    with a digit pass; the empty string, ["0"] itself and strings that
    start with a sign or a blank do not. *)
Theorem sentinel_filter (h : hevent) :
  created_after (last_time None) h = true
  <-> exists a s,
        created h = Str (String a s)
        /\ (Ascii.ltb "0" a = true \/ (a = "0"%char /\ s <> EmptyString)).
Proof.
  unfold created_after, last_time, or_default, str_gt, String.ltb.
  split.
  - destruct (created h) as [| |c]; try discriminate.
    destruct c as [|a s]; [discriminate|]. simpl.
    intros H. exists a, s. split; [reflexivity|].
    unfold Ascii.ltb.
    destruct (Ascii.compare "0" a) eqn:Ec.
    + right. split; [symmetry; now apply Ascii.compare_eq_iff|].
      destruct s; [discriminate | discriminate].
    + now left.
    + discriminate.
  - intros (a & s & -> & [Hlt|[-> Hs]]); simpl.
    + unfold Ascii.ltb in Hlt.
      destruct (Ascii.compare "0" a); try discriminate. reflexivity.
    + destruct s; [contradiction | reflexivity].
Qed.

(** ** The whole trace of a pass *)

Lemma flat_map_agree {A B : Type} (f g : A -> list B) (l : list A) :
  (forall x, In x l -> f x = g x) -> flat_map f l = flat_map g l.
Proof.
  induction l as [|x l IH]; simpl; intros H; [reflexivity|].
  rewrite (H x) by now left. f_equal. apply IH. intros y I. apply H. now right.
Qed.

Lemma pass1_trace (hist : string -> hresp) (items : list (string * employee)) :
  forall (d w : dict) (tr : list effect),
    NoDup (map fst items) ->
    pass1 hist items d = (Ok w, tr) ->
    tr = flat_map (fun kv => snd (step hist d (fst kv) (snd kv))) items.
Proof.
  induction items as [|[k e] items IH]; simpl; intros d w tr Hnd H.
  - now injection H as _ <-.
  - inversion Hnd as [|? ? Hni Hnd']; subst.
    destruct (step hist d k e) as [[d1|ex] out] eqn:Es; [|discriminate].
    destruct (pass1 hist items d1) as [r1 tr1] eqn:Ep.
    injection H as -> <-. simpl. f_equal.
    rewrite (IH d1 w tr1 Hnd' Ep). apply flat_map_agree.
    intros [k' e'] I. simpl. apply step_out_ext.
    eapply step_other; [eassumption|]. intros ->. apply Hni.
    change k with (fst (k, e')). now apply in_map.
Qed.

(** X20. The records of the catalogue are handled one by one and
    independently: the effects of a pass that ends are, in the order of
    the catalogue, what the loop body does for each record on the snapshot
    the run started from, followed by the [DELETED] messages. *)
Theorem trace_is_per_record (hist : string -> hresp)
  (old_data new_data next : dict) (tr : list effect) :
  wf old_data -> wf new_data ->
  reconcile hist old_data new_data = (Ok next, tr) ->
  tr = (flat_map (fun kv => snd (step hist old_data (fst kv) (snd kv)))
          new_data
        ++ map deleted_msg
             (filter (not_in_catalogue new_data) old_data))%list.
Proof.
  intros Hwo Hwn H.
  destruct (reconcile_ok_inv hist _ _ _ _ H) as (w & tr1 & tr2 & E1 & _ & _).
  rewrite (reconcile_closed hist _ _ w tr1 Hwo E1) in H.
  injection H as _ <-. f_equal.
  eapply pass1_trace; eassumption.
Qed.

Lemma trace_is_per_record_witness :
  [HistoryGet "1";
   Notify (Updated "1" "Alice" "Carol" "2024-01-02T00:00:00"
             [mk_change "title" "Eng" "Sr Eng"]);
   Notify (Created "2" "Bob");
   Notify (Deleted "3" "Carol")]
  = (flat_map (fun kv => snd (step Scenario.hist
                                [("3", Inputs.carol1); ("1", Inputs.alice1)]
                                (fst kv) (snd kv)))
       Scenario.current
     ++ map deleted_msg
          (filter (not_in_catalogue Scenario.current)
             [("3", Inputs.carol1); ("1", Inputs.alice1)]))%list.
Proof.
  apply (trace_is_per_record Scenario.hist
           [("3", Inputs.carol1); ("1", Inputs.alice1)] Scenario.current
           [("1", Scenario.alice2); ("2", Scenario.bob)]).
  - literal_wf.
  - literal_wf.
  - reflexivity.
Defined.

(** ** The filter of line 121 and the stored time stamp *)

(** Against a real time stamp, [last_time] and the stored time stamp
    decide alike: [old_updated or "0"] departs from the stored value only
    on the empty string, which sorts before every real time stamp as the
    sentinel does. *)
Lemma last_time_agrees (ts : option string) (c : string) :
  str_gt c (Specified.last_known None) = true ->
  str_gt c (last_time ts) = str_gt c (Specified.last_known ts).
Proof.
  unfold last_time, or_default, Specified.last_known.
  destruct ts as [t|]; [|reflexivity].
  destruct (String.eqb_spec t EmptyString) as [->|_]; [|reflexivity].
  intros H. rewrite H. destruct c; [discriminate | reflexivity].
Qed.

Lemma reportable_filter (ts : option string) (history : list hevent) :
  Specified.real_timestamps history ->
  filter (created_after (last_time ts)) history
  = Specified.reportable ts history.
Proof.
  intros Hreal. unfold Specified.reportable. apply filter_ext_in.
  intros h I. destruct (Hreal h I) as (c & Hc & Hgt).
  unfold created_after. rewrite Hc. now apply last_time_agrees.
Qed.

Lemma real_timestamps_dated (history : list hevent) :
  Specified.real_timestamps history -> Forall dated history.
Proof.
  intros Hreal. apply Forall_forall. intros h I.
  destruct (Hreal h I) as (c & Hc & _). now exists c.
Qed.

Lemma last_event_some (h0 : hevent) (history : list hevent) :
  exists h, last_event (h0 :: history) = Some h.
Proof.
  destruct (@exists_last _ (h0 :: history)) as (front & h & E);
    [discriminate|].
  exists h. rewrite E. apply last_event_app.
Qed.

(** When the iteration of a changed record ends and has something to
    report, the last entry of the history has an actor that can be
    read. *)
Lemma step_ok_actor (hist : string -> hresp) (d d' : dict) (k : string)
  (o e : employee) (history : list hevent) (out : list effect) :
  step hist d k e = (Ok d', out) ->
  dict_get k d = Some o ->
  updated e <> updated o ->
  hist k = HOk history ->
  Forall dated history ->
  filter (created_after (last_time (updated o))) history <> [] ->
  exists h who, last_event history = Some h /\ actor_name h = Ok who.
Proof.
  intros Hs Ho Hu Hh Hd Hne. unfold step in Hs. rewrite Ho, Hh in Hs.
  destruct (opt_eqb_spec (updated e) (updated o)); [contradiction|].
  destruct history as [|h0 history]; [now contradiction Hne|].
  fold (last_time (updated o)) in Hs.
  rewrite (collect_changes_dated _ _ Hd) in Hs. unfold updated_msg in Hs.
  destruct (map change_of _) as [|c cs] eqn:Em.
  { apply map_eq_nil in Em. contradiction. }
  destruct (last_event_some h0 history) as [h Hl]. rewrite Hl in Hs.
  destruct (actor_name h) as [who|ex] eqn:Ha; [|discriminate].
  exists h, who. now split.
Qed.

(** C4. Take a record whose time stamp changed and whose history was
    fetched with real time stamps, and let [lastKnown] be the stored time
    stamp if present and the sentinel ["0"] otherwise.  Every [UPDATED]
    message for the record lists the changes of exactly the history
    entries whose ["created"] is strictly greater than [lastKnown], in
    the order of the history.  When the pass ends and there is such an
    entry, that message is sent, once.  An entry is among the reported
    ones exactly when its date is after [lastKnown]: one dated before the
    stored time stamp is left out, one dated after it is reported. *)
Theorem reported_changes_are_newer (hist : string -> hresp)
  (old_data new_data : dict) (r : result dict) (tr : list effect)
  (k : string) (o e : employee) (history : list hevent) :
  wf old_data -> wf new_data ->
  dict_get k old_data = Some o ->
  dict_get k new_data = Some e ->
  updated e <> updated o ->
  hist k = HOk history ->
  Specified.real_timestamps history ->
  reconcile hist old_data new_data = (r, tr) ->
  (forall lbl who when cs,
     In (Notify (Updated k lbl who when cs)) tr ->
     cs = map change_of (Specified.reportable (updated o) history))
  /\ (forall next,
        r = Ok next ->
        Specified.reportable (updated o) history <> [] ->
        exists h who,
          last_event history = Some h
          /\ actor_name h = Ok who
          /\ filter (about k) tr
             = [HistoryGet k;
                Notify (Updated k (label e) who (created_text h)
                          (map change_of
                             (Specified.reportable (updated o) history)))])
  /\ (forall h c,
        In h history -> created h = Str c ->
        (In h (Specified.reportable (updated o) history)
         <-> str_gt c (Specified.last_known (updated o)) = true)).
Proof.
  intros Hwo Hwn Ho He Hu Hh Hreal H.
  pose proof (real_timestamps_dated history Hreal) as Hd.
  split; [|split].
  - intros lbl who when cs I.
    destruct (reconcile_updated_inv hist _ _ _ _ _ _ _ _ _ H I)
      as (e' & o' & history' & h' & _ & _ & Ho' & _ & Hh' & Hc & _).
    specialize (Ho' Hwn). rewrite Ho in Ho'. injection Ho' as <-.
    rewrite Hh in Hh'. injection Hh' as <-.
    apply collect_changes_ok in Hc. destruct Hc as [_ ->].
    now rewrite (reportable_filter (updated o) history Hreal).
  - intros next -> Hne.
    rewrite <- (reportable_filter (updated o) history Hreal) in *.
    destruct (reconcile_ok_inv hist _ _ _ _ H) as (w & tr1 & tr2 & E1 & _ & _).
    destruct (pass1_effect_intro hist new_data old_data w tr1 k e Hwn E1)
      as (dk & dk' & outk & Hs & Hg & _).
    { now apply dict_get_some_in. }
    rewrite Ho in Hg.
    destruct (step_ok_actor hist dk dk' k o e history outk Hs Hg Hu Hh Hd Hne)
      as (h & who & Hl & Ha).
    exists h, who. split; [exact Hl|]. split; [exact Ha|].
    rewrite (reconcile_about hist _ _ _ _ k e Hwo Hwn He H).
    destruct history as [|h0 history]; [now contradiction Hne|].
    rewrite (step_well_dated hist _ k o e h0 history Ho Hu Hh Hd).
    unfold updated_msg.
    destruct (map change_of _) as [|c cs] eqn:Em.
    { apply map_eq_nil in Em. contradiction. }
    rewrite Hl, Ha. simpl. now rewrite String.eqb_refl.
  - intros h c I Hc. unfold Specified.reportable.
    rewrite filter_In. unfold created_after. rewrite Hc. tauto.
Qed.

Lemma reported_changes_are_newer_witness :
  (forall lbl who when cs,
     In (Notify (Updated "1" lbl who when cs))
        (snd (reconcile Inputs.newest_first Runs.alice_old Runs.alice_new)) ->
     cs = map change_of
            (Specified.reportable (Some Inputs.ts1)
               [Inputs.event Inputs.ts2 (Str "title") (Str "Eng")
                  (Str "Sr Eng") "Carol";
                Inputs.event Inputs.ts0 (Str "phone") (Str "555-0100")
                  (Str "555-0199") "Eve"]))
  /\ (forall next,
        Ok Runs.alice_new = Ok next ->
        Specified.reportable (Some Inputs.ts1)
          [Inputs.event Inputs.ts2 (Str "title") (Str "Eng")
             (Str "Sr Eng") "Carol";
           Inputs.event Inputs.ts0 (Str "phone") (Str "555-0100")
             (Str "555-0199") "Eve"] <> [] ->
        exists h who,
          last_event
            [Inputs.event Inputs.ts2 (Str "title") (Str "Eng")
               (Str "Sr Eng") "Carol";
             Inputs.event Inputs.ts0 (Str "phone") (Str "555-0100")
               (Str "555-0199") "Eve"] = Some h
          /\ actor_name h = Ok who
          /\ filter (about "1")
               (snd (reconcile Inputs.newest_first Runs.alice_old
                       Runs.alice_new))
             = [HistoryGet "1";
                Notify (Updated "1" "Alice" who (created_text h)
                          (map change_of
                             (Specified.reportable (Some Inputs.ts1)
                                [Inputs.event Inputs.ts2 (Str "title")
                                   (Str "Eng") (Str "Sr Eng") "Carol";
                                 Inputs.event Inputs.ts0 (Str "phone")
                                   (Str "555-0100") (Str "555-0199")
                                   "Eve"])))])
  /\ (forall h c,
        In h [Inputs.event Inputs.ts2 (Str "title") (Str "Eng")
                (Str "Sr Eng") "Carol";
              Inputs.event Inputs.ts0 (Str "phone") (Str "555-0100")
                (Str "555-0199") "Eve"] ->
        created h = Str c ->
        (In h (Specified.reportable (Some Inputs.ts1)
                 [Inputs.event Inputs.ts2 (Str "title") (Str "Eng")
                    (Str "Sr Eng") "Carol";
                  Inputs.event Inputs.ts0 (Str "phone") (Str "555-0100")
                    (Str "555-0199") "Eve"])
         <-> str_gt c (Specified.last_known (Some Inputs.ts1)) = true)).
Proof.
  apply (reported_changes_are_newer Inputs.newest_first Runs.alice_old
           Runs.alice_new (Ok Runs.alice_new)
           (snd (reconcile Inputs.newest_first Runs.alice_old Runs.alice_new))
           "1" Inputs.alice1 Inputs.alice2).
  - literal_wf.
  - literal_wf.
  - reflexivity.
  - reflexivity.
  - simpl. discriminate.
  - reflexivity.
  - intros h [<-|[<-|[]]]; eexists; split; reflexivity.
  - reflexivity.
Defined.

(** The run of the witness: the entry of [Inputs.ts0], older than the
    stored [Inputs.ts1], is left out; the one of [Inputs.ts2] is
    reported. *)
Example older_entry_left_out :
  map change_of
    (Specified.reportable (Some Inputs.ts1)
       [Inputs.event Inputs.ts2 (Str "title") (Str "Eng") (Str "Sr Eng")
          "Carol";
        Inputs.event Inputs.ts0 (Str "phone") (Str "555-0100")
          (Str "555-0199") "Eve"])
  = [mk_change "title" "Eng" "Sr Eng"].
Proof. reflexivity. Qed.
